(** * Vacuum-cleaner world: the environment and its HTTP front end

    A shallow embedding of [environment.py] (class [Environment]) and of the
    routes of [environment_server.py] that sense and act on an environment,
    followed by the properties of the simulation state machine.

    Modelling conventions.
    - Python integers are [Z]; the [dirt_rate] is an IEEE 754 binary64 value
      ([spec_float] with precision 53 and maximal exponent 1024).
    - The numpy array [grid] of shape [(sizeY, sizeX)] is a list of rows,
      read as [grid[y][x]]; an index outside [-n, n) raises [IndexError] and
      a negative index in range wraps around, as numpy does.
    - A method that mutates [self] takes the environment and returns the
      environment after the call next to its result; a raised exception is
      a [Raise] result, and the mutations done before it are kept.
    - The process-wide generator of the [random] module is a state that
      [Environment__init__] takes and returns. *)

From Stdlib Require Import ZArith Lia Bool QArith Qround Ascii.
From Stdlib Require Import Floats.SpecFloat.
From stdpp Require Import base option list strings gmap.

Local Open Scope Z_scope.

(** ** Python results *)

Inductive exn := ValueError | IndexError | OverflowError.

Inductive result (A : Type) :=
  | Ok (a : A)
  | Raise (e : exn).
Arguments Ok {A} a.
Arguments Raise {A} e.

#[global] Instance result_ret : MRet result := λ A a, Ok a.
#[global] Instance result_bind : MBind result := λ A B f r,
  match r with Ok a => f a | Raise e => Raise e end.
#[global] Instance result_fmap : FMap result := λ A B f r,
  match r with Ok a => Ok (f a) | Raise e => Raise e end.

(** [range(n)] *)
Definition range (n : Z) : list Z := Z.of_nat <$> seq 0 (Z.to_nat n).

(** ** Binary64 arithmetic used by [_initialize_dirt] *)

Module Float.
Definition prec : Z := 53.
Definition emax : Z := 1024.

Definition zero : spec_float := S754_zero false.
Definition one : spec_float := S754_finite false 4503599627370496 (-52).

(** [float(n)] for a Python integer; too large an integer raises. *)
Definition of_int (n : Z) : result spec_float :=
  match binary_normalize prec emax n 0 false with
  | S754_infinity _ => Raise OverflowError
  | f => Ok f
  end.

Definition mul : spec_float → spec_float → spec_float := SFmul prec emax.

(** [int(f)]: truncation toward zero. *)
Definition to_int (f : spec_float) : result Z :=
  match f with
  | S754_zero _ => Ok 0
  | S754_finite s m e =>
      Ok (if 0 <=? e then cond_Zopp s (Z.pos m) * 2 ^ e
          else Z.quot (cond_Zopp s (Z.pos m)) (2 ^ (- e)))
  | S754_infinity _ => Raise OverflowError
  | S754_nan => Raise ValueError
  end.

(** The rational value of a finite float, for stating what the
    arithmetic computes. *)
Definition to_Q (f : spec_float) : Q :=
  match f with
  | S754_finite s m e =>
      if 0 <=? e then inject_Z (cond_Zopp s (Z.pos m) * 2 ^ e)
      else Qmake (cond_Zopp s (Z.pos m)) (Z.to_pos (2 ^ (- e)))
  | _ => 0%Q
  end.
End Float.

(** ** The [random] module

    [random.seed(a)] puts the generator in a state that depends on [a]
    alone; [random.sample(population, k)] returns [k] elements taken at
    distinct positions of the population and advances the generator. *)

Class PyRandom (rng : Type) := {
  random_seed : Z → rng;
  random_sample : list (Z * Z) → Z → rng → result (list (Z * Z)) * rng
}.

(** What the library documents of [random.sample]: for [0 <= k <= len], a
    list of length [k] that is, up to order, a sub-list of the population. *)
Definition sample_contract {rng} {R : PyRandom rng} : Prop :=
  ∀ (pop : list (Z * Z)) (k : Z) (g : rng),
    0 ≤ k ≤ Z.of_nat (length pop) →
    ∃ l, (random_sample pop k g).1 = Ok l ∧ Z.of_nat (length l) = k ∧ l ⊆+ pop.

(** A small generator that satisfies the contract: a linear congruential
    state, and a sample drawn by removing one element of the pool per draw. *)
Definition lcg_next (g : Z) : Z := (g * 1103515245 + 12345) `mod` 2147483648.

Fixpoint lcg_draw (pool : list (Z * Z)) (k : nat) (g : Z) : list (Z * Z) * Z :=
  match k with
  | O => ([], g)
  | S k' =>
      let j := Z.to_nat (g `mod` Z.of_nat (length pool)) in
      match pool !! j with
      | None => ([], g)
      | Some c =>
          let '(l, g') := lcg_draw (delete j pool) k' (lcg_next g) in
          (c :: l, g')
      end
  end.

Definition lcg_sample (pop : list (Z * Z)) (k : Z) (g : Z)
  : result (list (Z * Z)) * Z :=
  if (k <? 0) || (Z.of_nat (length pop) <? k) then (Raise ValueError, g)
  else let '(l, g') := lcg_draw pop (Z.to_nat k) g in (Ok l, g').

Definition lcg_random : PyRandom Z :=
  {| random_seed := λ a, Z.abs a `mod` 2147483648;
     random_sample := lcg_sample |}.

(** ** numpy arrays of shape (rows, columns) *)

Definition np_zeros (rows cols : Z) : result (list (list Z)) :=
  if (rows <? 0) || (cols <? 0) then Raise ValueError
  else Ok (replicate (Z.to_nat rows) (replicate (Z.to_nat cols) 0)).

Definition np_index (n : nat) (i : Z) : result nat :=
  if (0 <=? i) && (i <? Z.of_nat n) then Ok (Z.to_nat i)
  else if (- Z.of_nat n <=? i) && (i <? 0) then Ok (Z.to_nat (Z.of_nat n + i))
  else Raise IndexError.

Definition np_row (g : list (list Z)) (y : Z) : result (nat * list Z) :=
  j ← np_index (length g) y;
  match g !! j with
  | Some row => Ok (j, row)
  | None => Raise IndexError
  end.

(** [g[y, x]] *)
Definition grid_get (g : list (list Z)) (y x : Z) : result Z :=
  '(_, row) ← np_row g y;
  i ← np_index (length row) x;
  match row !! i with
  | Some v => Ok v
  | None => Raise IndexError
  end.

(** [g[y, x] = v] *)
Definition grid_set (g : list (list Z)) (y x v : Z) : result (list (list Z)) :=
  '(j, row) ← np_row g y;
  i ← np_index (length row) x;
  Ok (<[j := <[i := v]> row]> g).

Definition np_sum (g : list (list Z)) : Z := foldr Z.add 0 (concat g).

(** ** environment.py *)

Inductive Action := UP | DOWN | LEFT | RIGHT | SUCK | IDLE.

#[global] Instance Action_eq_dec : EqDecision Action.
Proof. solve_decision. Defined.

Record Environment := mkEnvironment {
  sizeX : Z;
  sizeY : Z;
  grid : list (list Z);
  agent_x : Z;
  agent_y : Z;
  dirt_rate : spec_float;
  performance : Z;
  actions_taken : Z;
  max_actions : Z;
  completion_reason : option string
}.

Definition set_grid (g : list (list Z)) (self : Environment) : Environment :=
  mkEnvironment (sizeX self) (sizeY self) g (agent_x self) (agent_y self)
    (dirt_rate self) (performance self) (actions_taken self)
    (max_actions self) (completion_reason self).

Definition set_agent_x (x : Z) (self : Environment) : Environment :=
  mkEnvironment (sizeX self) (sizeY self) (grid self) x (agent_y self)
    (dirt_rate self) (performance self) (actions_taken self)
    (max_actions self) (completion_reason self).

Definition set_agent_y (y : Z) (self : Environment) : Environment :=
  mkEnvironment (sizeX self) (sizeY self) (grid self) (agent_x self) y
    (dirt_rate self) (performance self) (actions_taken self)
    (max_actions self) (completion_reason self).

Definition set_performance (p : Z) (self : Environment) : Environment :=
  mkEnvironment (sizeX self) (sizeY self) (grid self) (agent_x self)
    (agent_y self) (dirt_rate self) p (actions_taken self)
    (max_actions self) (completion_reason self).

Definition set_actions_taken (n : Z) (self : Environment) : Environment :=
  mkEnvironment (sizeX self) (sizeY self) (grid self) (agent_x self)
    (agent_y self) (dirt_rate self) (performance self) n
    (max_actions self) (completion_reason self).

Definition set_completion_reason (r : option string) (self : Environment)
  : Environment :=
  mkEnvironment (sizeX self) (sizeY self) (grid self) (agent_x self)
    (agent_y self) (dirt_rate self) (performance self) (actions_taken self)
    (max_actions self) r.

(** [[(x, y) for x in range(sizeX) for y in range(sizeY)]] *)
Definition cells (sx sy : Z) : list (Z * Z) :=
  x ← range sx; y ← range sy; [(x, y)].

(** [int(total_cells * self.dirt_rate)] *)
Definition num_dirty (sx sy : Z) (rate : spec_float) : result Z :=
  t ← Float.of_int (sx * sy);
  Float.to_int (Float.mul t rate).

(** The loop [for x, y in dirty_positions: self.grid[y, x] = 1]. *)
Fixpoint mark_dirty (positions : list (Z * Z)) (g : list (list Z))
  : result (list (list Z)) :=
  match positions with
  | [] => Ok g
  | (x, y) :: rest => g' ← grid_set g y x 1; mark_dirty rest g'
  end.

Section Construction.
Context {rng : Type} {R : PyRandom rng}.

Definition _initialize_dirt (self : Environment) (g : rng)
  : result Environment * rng :=
  match num_dirty (sizeX self) (sizeY self) (dirt_rate self) with
  | Raise e => (Raise e, g)
  | Ok n =>
      let '(sampled, g') :=
        random_sample (cells (sizeX self) (sizeY self)) n g in
      (dirty_positions ← sampled;
       grid' ← mark_dirty dirty_positions (grid self);
       Ok (set_grid grid' self), g')
  end.

Definition Environment__init__
    (sizeX sizeY init_posX init_posY : Z) (dirt_rate : spec_float)
    (seed : option Z) (g : rng) : result Environment * rng :=
  match np_zeros sizeY sizeX with
  | Raise e => (Raise e, g)
  | Ok zeros =>
      let self :=
        mkEnvironment sizeX sizeY zeros init_posX init_posY dirt_rate
          0 0 1000 None in
      let g := match seed with Some a => random_seed a | None => g end in
      _initialize_dirt self g
  end.
End Construction.

Definition is_dirty (self : Environment) : result bool :=
  v ← grid_get (grid self) (agent_y self) (agent_x self);
  Ok (v =? 1).

Definition accept_action (action : Action) (self : Environment)
  : result bool * Environment :=
  if max_actions self <=? actions_taken self then (Ok false, self)
  else
    let self := set_actions_taken (actions_taken self + 1) self in
    match action with
    | UP =>
        (Ok true,
         if 0 <? agent_y self then set_agent_y (agent_y self - 1) self
         else self)
    | DOWN =>
        (Ok true,
         if agent_y self <? sizeY self - 1
         then set_agent_y (agent_y self + 1) self else self)
    | LEFT =>
        (Ok true,
         if 0 <? agent_x self then set_agent_x (agent_x self - 1) self
         else self)
    | RIGHT =>
        (Ok true,
         if agent_x self <? sizeX self - 1
         then set_agent_x (agent_x self + 1) self else self)
    | SUCK =>
        match is_dirty self with
        | Raise e => (Raise e, self)
        | Ok false => (Ok true, self)
        | Ok true =>
            match grid_set (grid self) (agent_y self) (agent_x self) 0 with
            | Raise e => (Raise e, self)
            | Ok grid' =>
                let self := set_grid grid' self in
                (Ok true, set_performance (performance self + 1) self)
            end
        end
    | IDLE => (Ok true, self)
    end.

Definition all_dirt_cleaned (self : Environment) : bool :=
  np_sum (grid self) =? 0.

Definition get_performance (self : Environment) : Z := performance self.

Definition get_agent_position (self : Environment) : Z * Z :=
  (agent_x self, agent_y self).

(** [if self.completion_reason is None: self.completion_reason = r] *)
Definition record_reason (r : string) (self : Environment) : Environment :=
  match completion_reason self with
  | None => set_completion_reason (Some r) self
  | Some _ => self
  end.

Definition is_finished (self : Environment) : bool * Environment :=
  if max_actions self <=? actions_taken self
  then (true, record_reason "max_steps_reached" self)
  else if all_dirt_cleaned self
  then (true, record_reason "all_cleaned" self)
  else (false, self).

Definition get_actions_remaining (self : Environment) : Z :=
  max_actions self - actions_taken self.

(** The two methods of [Environment] that mutate it, as the calls a client
    can cause, and a session's history as a list of such calls. *)
Inductive call :=
  | CallAccept (a : Action)
  | CallFinished.

Definition do_call (self : Environment) (c : call) : Environment :=
  match c with
  | CallAccept a => (accept_action a self).2
  | CallFinished => (is_finished self).2
  end.

Definition run (cs : list call) (self : Environment) : Environment :=
  foldl do_call self cs.

(** The position is a cell of the grid. *)
Definition in_bounds (self : Environment) : Prop :=
  0 ≤ agent_x self < sizeX self ∧ 0 ≤ agent_y self < sizeY self.

(** The grid has [sizeY] rows of [sizeX] cells, each 0 or 1. *)
Definition grid_shaped (sx sy : Z) (g : list (list Z)) : Prop :=
  Z.of_nat (length g) = sy ∧
  Forall (λ row, Z.of_nat (length row) = sx ∧ Forall (λ v, v = 0 ∨ v = 1) row) g.

Definition well_formed (self : Environment) : Prop :=
  in_bounds self ∧ grid_shaped (sizeX self) (sizeY self) (grid self).

#[global] Instance well_formed_dec self : Decision (well_formed self).
Proof. unfold well_formed, in_bounds, grid_shaped. apply _. Defined.

(** The dirt set: the cells whose flag is 1. *)
Definition dirty_at (g : list (list Z)) (c : Z * Z) : bool :=
  match grid_get g c.2 c.1 with
  | Ok v => v =? 1
  | Raise _ => false
  end.

Definition dirt_cells (self : Environment) : list (Z * Z) :=
  filter (λ c, dirty_at (grid self) c = true) (cells (sizeX self) (sizeY self)).

(** The reason "max_steps_reached" is recorded only with the budget spent. *)
Definition reason_sound (e : Environment) : Prop :=
  completion_reason e = Some "max_steps_reached"%string →
  max_actions e ≤ actions_taken e.

(** The step counter is within the budget of 1000 steps. *)
Definition within_budget (e : Environment) : Prop :=
  actions_taken e ≤ max_actions e ∧ max_actions e = 1000.

(** A session without dirt and without reward. *)
Definition spotless (e : Environment) : Prop :=
  well_formed e ∧ performance e = 0 ∧
  grid e = replicate (Z.to_nat (sizeY e)) (replicate (Z.to_nat (sizeX e)) 0).

(** A movement that the grid boundary stops. *)
Definition into_boundary (a : Action) (self : Environment) : bool :=
  match a with
  | UP => agent_y self =? 0
  | DOWN => agent_y self =? sizeY self - 1
  | LEFT => agent_x self =? 0
  | RIGHT => agent_x self =? sizeX self - 1
  | SUCK | IDLE => false
  end.

(** ** environment_server.py *)

(** [str.lower] of the Python library. *)
Class PyStr := {
  str_lower : string → string;
  str_lower_empty : str_lower "" = ""%string
}.

(** Its restriction to ASCII letters, on byte strings. *)
Definition ascii_lower_char (c : ascii) : ascii :=
  let n := nat_of_ascii c in
  if (65 <=? n)%nat && (n <=? 90)%nat then ascii_of_nat (n + 32) else c.

Fixpoint ascii_lower (s : string) : string :=
  match s with
  | EmptyString => EmptyString
  | String c s' => String (ascii_lower_char c) (ascii_lower s')
  end.

Definition ascii_str : PyStr :=
  {| str_lower := ascii_lower; str_lower_empty := eq_refl |}.

(** A registry entry; the readings of [time.time()] are only stored, and are
    taken as numbers supplied with each request. *)
Record entry := mkEntry {
  environment : Environment;
  created_at : Z;
  last_access : Z
}.

(** [EnvironmentServer.environments]; the lock is not modelled, a route
    runs from its lookup to its response without interleaving. *)
Abbreviation EnvironmentServer := (gmap string entry).

Definition get_environment (env_id : string) (now : Z) (srv : EnvironmentServer)
  : option Environment * EnvironmentServer :=
  match srv !! env_id with
  | Some en =>
      (Some (environment en),
       <[env_id := mkEntry (environment en) (created_at en) now]> srv)
  | None => (None, srv)
  end.

(** The environment is an object shared with the registry: a mutation by a
    route is seen through the registry entry. *)
Definition store (env_id : string) (env : Environment) (srv : EnvironmentServer)
  : EnvironmentServer :=
  alter (λ en, mkEntry env (created_at en) (last_access en)) env_id srv.

Definition action_map : gmap string Action :=
  list_to_map
    [("up", UP); ("down", DOWN); ("left", LEFT); ("right", RIGHT);
     ("suck", SUCK); ("idle", IDLE)]%string.

(** The values of the enumeration [Action]. *)
Definition action_name (a : Action) : string :=
  match a with
  | UP => "up" | DOWN => "down" | LEFT => "left" | RIGHT => "right"
  | SUCK => "suck" | IDLE => "idle"
  end.

Definition action_names : list string :=
  action_name <$> [UP; DOWN; LEFT; RIGHT; SUCK; IDLE].

Record previous_state := mkPrevious {
  prev_position : Z * Z;
  prev_is_dirty : bool;
  prev_performance : Z
}.

Record new_state := mkNew {
  new_position : Z * Z;
  new_is_dirty : bool;
  new_performance : Z;
  new_actions_taken : Z;
  new_actions_remaining : Z;
  new_is_finished : bool;
  new_completion_reason : option string
}.

Record action_response := mkActionResponse {
  success : bool;
  action : string;
  previous : previous_state;
  new : new_state;
  reward : Z
}.

Record perception := mkPerception {
  position : Z * Z;
  perceived_dirty : bool;
  actions_remaining : Z;
  finished : bool;
  reason : option string
}.

Inductive response :=
  | ActionDone (r : action_response)
  | Sensed (p : perception)
  | BadRequest (msg : string)
  | NotFound (msg : string)
  | ServerError (e : exn).

Section Routes.
Context {S : PyStr}.

(** POST /api/environment/<env_id>/action with a JSON body whose
    ['action'] member is [action_str] ([None] when it is absent). *)
Definition execute_action (env_id : string) (action_str : option string)
    (now : Z) (srv : EnvironmentServer) : response * EnvironmentServer :=
  match get_environment env_id now srv with
  | (None, srv) => (NotFound "Environment not found", srv)
  | (Some env, srv) =>
      match action_str with
      | None | Some EmptyString => (BadRequest "Action required", srv)
      | Some action_str =>
          match action_map !! str_lower action_str with
          | None => (BadRequest "Invalid action", srv)
          | Some action =>
              let prev_performance := get_performance env in
              let prev_position := get_agent_position env in
              match is_dirty env with
              | Raise e => (ServerError e, srv)
              | Ok prev_dirty =>
                  match accept_action action env with
                  | (Raise e, env) => (ServerError e, store env_id env srv)
                  | (Ok success, env) =>
                      let new_performance := get_performance env in
                      let new_position := get_agent_position env in
                      match is_dirty env with
                      | Raise e => (ServerError e, store env_id env srv)
                      | Ok new_dirty =>
                          let taken := actions_taken env in
                          let remaining := get_actions_remaining env in
                          let '(fin, env) := is_finished env in
                          (ActionDone
                             (mkActionResponse success action_str
                                (mkPrevious prev_position prev_dirty
                                   prev_performance)
                                (mkNew new_position new_dirty new_performance
                                   taken remaining fin
                                   (completion_reason env))
                                (new_performance - prev_performance)),
                           store env_id env srv)
                      end
                  end
              end
          end
      end
  end.
End Routes.

(** GET /api/environment/<env_id>/sense *)
Definition sense_environment (env_id : string) (now : Z)
    (srv : EnvironmentServer) : response * EnvironmentServer :=
  match get_environment env_id now srv with
  | (None, srv) => (NotFound "Environment not found", srv)
  | (Some env, srv) =>
      let '(agent_x, agent_y) := get_agent_position env in
      match is_dirty env with
      | Raise e => (ServerError e, srv)
      | Ok dirty =>
          let remaining := get_actions_remaining env in
          let '(fin, env) := is_finished env in
          (Sensed
             (mkPerception (agent_x, agent_y) dirty remaining fin
                (completion_reason env)),
           store env_id env srv)
      end
  end.

(** The checks of POST /api/environment on its parameters. *)
Definition valid_parameters (sizeX sizeY init_posX init_posY : Z)
    (dirt_rate : spec_float) : bool :=
  ((1 <=? sizeX) && (sizeX <=? 256) && (1 <=? sizeY) && (sizeY <=? 256)) &&
  ((0 <=? init_posX) && (init_posX <? sizeX) &&
   (0 <=? init_posY) && (init_posY <? sizeY)) &&
  (SFleb Float.zero dirt_rate && SFleb dirt_rate Float.one).

(** ** The specification's sample size: [round(width * height * dirtRate)],
    to the nearest integer, a tie to the even one. *)
Definition Qround (q : Q) : Z :=
  let f := Qfloor q in
  match Qcompare (q - inject_Z f) (1 # 2) with
  | Lt => f
  | Gt => f + 1
  | Eq => if Z.even f then f else f + 1
  end.

Definition spec_num_dirty (sx sy : Z) (rate : spec_float) : Z :=
  Qround (inject_Z (sx * sy) * Float.to_Q rate).

(** ** Values of the arithmetic

    The rounding of [Float.mul] shifts the exact product to the right; a
    shift record holds the quotient [shr_m] of [M] by [2^j] and remembers
    in [shr_r] and [shr_s] whether a non-zero bit was lost. *)
Definition inexact (mrs : shr_record) : bool := shr_r mrs || shr_s mrs.

Definition shifted (M j : Z) (mrs : shr_record) : Prop :=
  0 ≤ shr_m mrs ∧ shr_m mrs * 2 ^ j ≤ M < (shr_m mrs + 1) * 2 ^ j ∧
  (inexact mrs = true → shr_m mrs * 2 ^ j < M).

(** A float that is zero, or positive and at most the integer [N]. *)
Definition at_most (N : Z) (f : spec_float) : Prop :=
  match f with
  | S754_zero _ => True
  | S754_finite false m e => e ≤ 0 ∧ Z.pos m ≤ N * 2 ^ (- e)
  | _ => False
  end.

(** A float between zero and one. *)
Definition unit_rate (r : spec_float) : Prop :=
  match r with
  | S754_zero _ => True
  | S754_finite false m e => e ≤ 0 ∧ Z.pos m ≤ 2 ^ (- e)
  | _ => False
  end.

(** A binary64 value: the mantissa and the exponent are in canonical form. *)
Definition is_binary64 (r : spec_float) : Prop :=
  valid_binary Float.prec Float.emax r = true.

(** ** Sample values *)

Definition rate_0_3 : spec_float := S754_finite false 5404319552844595 (-54).
Definition rate_0_75 : spec_float := S754_finite false 6755399441055744 (-53).
Definition rate_0_29 : spec_float := S754_finite false 5224175567749775 (-54).

Definition new_environment (sx sy px py : Z) (rate : spec_float) (seed : Z)
  : result Environment :=
  (Environment__init__ (R := lcg_random) sx sy px py rate (Some seed) 0).1.

(** A 2x2 world with three dirty cells and the agent on the clean one. *)
Definition world_2x2 : Environment :=
  mkEnvironment 2 2 [[0; 1]; [1; 1]] 0 0 rate_0_75 0 0 1000 None.

(** A 1x1 world, dirty. *)
Definition world_1x1 : Environment :=
  mkEnvironment 1 1 [[1]] 0 0 Float.one 0 0 1000 None.

(** An 8x8 world without dirt. *)
Definition world_clean : Environment :=
  mkEnvironment 8 8 (replicate 8 (replicate 8 0)) 4 4 Float.zero 0 0 1000 None.

(** Registries with one session. *)
Definition clean_server : EnvironmentServer :=
  {[ "w"%string := mkEntry world_clean 0 0 ]}.

Definition small_server : EnvironmentServer :=
  {[ "w"%string := mkEntry world_2x2 0 0 ]}.

(** [world_1x1] after its only cell is cleaned and the end is observed. *)
Definition cleaned_session : Environment :=
  run [CallAccept SUCK; CallFinished] world_1x1.

(** ** environment_server.py: the rest of the registry and of the routes *)

Section Registry.
Context {rng : Type} {R : PyRandom rng}.

(** [EnvironmentServer.create_environment]: [env_id] is the identifier
    that [uuid.uuid4()] draws, [created] and [accessed] are the two readings
    of the clock; an exception of the constructor leaves the registry as it
    was. *)
Definition create_environment (env_id : string)
    (sizeX sizeY init_posX init_posY : Z) (dirt_rate : spec_float)
    (seed : option Z) (created accessed : Z) (g : rng)
    (srv : EnvironmentServer) : result string * EnvironmentServer * rng :=
  match Environment__init__ sizeX sizeY init_posX init_posY dirt_rate seed g with
  | (Ok env, g) => (Ok env_id, <[env_id := mkEntry env created accessed]> srv, g)
  | (Raise e, g) => (Raise e, srv, g)
  end.
End Registry.

(** [EnvironmentServer.delete_environment] *)
Definition delete_environment (env_id : string) (srv : EnvironmentServer)
  : bool * EnvironmentServer :=
  match srv !! env_id with
  | Some _ => (true, delete env_id srv)
  | None => (false, srv)
  end.

(** The entries that [cleanup_old_environments] collects in [to_delete]:
    [current_time - env_data['last_access'] > max_age]. The readings of the
    clock and [max_age] are whole numbers of ticks, as in [entry], so the
    subtraction is exact. *)
Definition stale (max_age current_time : Z) (kv : string * entry) : Prop :=
  max_age < current_time - last_access kv.2.

#[global] Instance stale_dec max_age current_time kv :
  Decision (stale max_age current_time kv).
Proof. unfold stale. apply _. Defined.

(** [EnvironmentServer.cleanup_old_environments], with the reading of the
    clock as [current_time]; the result does not depend on the order in
    which the dictionary is visited. *)
Definition cleanup_old_environments (max_age current_time : Z)
    (srv : EnvironmentServer) : Z * EnvironmentServer :=
  let to_delete := (filter (stale max_age current_time) (map_to_list srv)).*1 in
  (Z.of_nat (length to_delete), foldl (λ m env_id, delete env_id m) srv to_delete).

(** The JSON body of POST /api/environment: a member is [None] when the
    body does not have it. *)
Record create_request := mkCreateRequest {
  req_sizeX : option Z;
  req_sizeY : option Z;
  req_init_posX : option Z;
  req_init_posY : option Z;
  req_dirt_rate : option spec_float;
  req_seed : option Z
}.

Inductive create_response :=
  | Created (environment_id : string) (sizeX sizeY : Z)
      (initial_position : Z * Z) (dirt_rate : spec_float)
  | CreateRejected (msg : string)
  | CreateFailed (e : exn).

Record state_response := mkStateResponse {
  st_environment_id : string;
  st_agent_position : Z * Z;
  st_is_dirty : bool;
  st_performance : Z;
  st_actions_taken : Z;
  st_actions_remaining : Z;
  st_is_finished : bool;
  st_completion_reason : option string;
  st_grid : list (list Z)
}.

Inductive state_result :=
  | StateOk (s : state_response)
  | StateNotFound (msg : string)
  | StateError (e : exn).


Inductive delete_response :=
  | Deleted (msg : string)
  | DeleteNotFound (msg : string).

Module Route.
Section WithRandom.
Context {rng : Type} {R : PyRandom rng}.

(** POST /api/environment *)
Definition create_environment (env_id : string) (data : create_request)
    (created accessed : Z) (g : rng) (srv : EnvironmentServer)
  : create_response * EnvironmentServer * rng :=
  let sizeX := default 8 (req_sizeX data) in
  let sizeY := default 8 (req_sizeY data) in
  let init_posX := default (sizeX `div` 2) (req_init_posX data) in
  let init_posY := default (sizeY `div` 2) (req_init_posY data) in
  let dirt_rate :=
    default (S754_finite false 5404319552844595 (-54)) (req_dirt_rate data) in
  let seed := req_seed data in
  if negb ((1 <=? sizeX) && (sizeX <=? 256) && (1 <=? sizeY) && (sizeY <=? 256))
  then (CreateRejected "Invalid size parameters", srv, g)
  else if negb ((0 <=? init_posX) && (init_posX <? sizeX) &&
                (0 <=? init_posY) && (init_posY <? sizeY))
  then (CreateRejected "Invalid initial position", srv, g)
  else if negb (SFleb Float.zero dirt_rate && SFleb dirt_rate Float.one)
  then (CreateRejected "Invalid dirt rate", srv, g)
  else
    match create_environment env_id sizeX sizeY init_posX init_posY dirt_rate
            seed created accessed g srv with
    | (Ok env_id, srv, g) =>
        (Created env_id sizeX sizeY (init_posX, init_posY) dirt_rate, srv, g)
    | (Raise e, srv, g) => (CreateFailed e, srv, g)
    end.
End WithRandom.

(** DELETE /api/environment/<env_id> *)
Definition delete_environment (env_id : string) (srv : EnvironmentServer)
  : delete_response * EnvironmentServer :=
  match delete_environment env_id srv with
  | (true, srv) => (Deleted "Environment deleted successfully", srv)
  | (false, srv) => (DeleteNotFound "Environment not found", srv)
  end.

(** GET /api/environment/<env_id>/state *)
Definition get_environment_state (env_id : string) (now : Z)
    (srv : EnvironmentServer) : state_result * EnvironmentServer :=
  match get_environment env_id now srv with
  | (None, srv) => (StateNotFound "Environment not found", srv)
  | (Some env, srv) =>
      let '(agent_x, agent_y) := get_agent_position env in
      match is_dirty env with
      | Raise e => (StateError e, srv)
      | Ok dirty =>
          let performance := get_performance env in
          let taken := actions_taken env in
          let remaining := get_actions_remaining env in
          let '(fin, env) := is_finished env in
          (StateOk
             (mkStateResponse env_id (agent_x, agent_y) dirty performance
                taken remaining fin (completion_reason env) (grid env)),
           store env_id env srv)
      end
  end.


(** POST /api/cleanup; [max_age] is [None] when the body does not have it. *)
Definition cleanup_environments (max_age : option Z) (now : Z)
    (srv : EnvironmentServer) : Z * EnvironmentServer :=
  cleanup_old_environments (default 3600 max_age) now srv.

(** GET /api/health: the member [active_environments]. *)
Definition health_check (srv : EnvironmentServer) : Z := Z.of_nat (size srv).
End Route.

(** ** base_agent.py: statistics, recording and replay *)

(** The counters of [_update_efficiency_stats]. *)
Record efficiency := mkEfficiency {
  suck_attempts : Z;
  successful_sucks : Z;
  movement_actions : Z;
  idle_actions : Z
}.

Definition _update_efficiency_stats (action : string) (success : bool)
    (reward : Z) (self : efficiency) : efficiency :=
  if decide (action = "suck"%string) then
    mkEfficiency (suck_attempts self + 1)
      (if 0 <? reward then successful_sucks self + 1 else successful_sucks self)
      (movement_actions self) (idle_actions self)
  else if decide (action ∈ ["up"; "down"; "left"; "right"]%string) then
    mkEfficiency (suck_attempts self) (successful_sucks self)
      (movement_actions self + 1) (idle_actions self)
  else if decide (action = "idle"%string) then
    mkEfficiency (suck_attempts self) (successful_sucks self)
      (movement_actions self) (idle_actions self + 1)
  else self.

(** The dictionary that [_capture_current_state] builds. *)
Record snapshot := mkSnapshot {
  snap_grid : list (list Z);
  snap_agent_position : Z * Z;
  snap_is_dirty : bool;
  snap_performance : Z;
  snap_actions_taken : Z;
  snap_actions_remaining : Z
}.

Record recorded_perception := mkRecordedPerception {
  rp_position : Z * Z;
  rp_is_dirty : bool;
  rp_actions_remaining : Z
}.

Record step_data := mkStep {
  step : Z;
  step_action : string;
  before_state : snapshot;
  after_state : snapshot;
  step_reward : Z;
  step_perception : recorded_perception
}.

(** [_record_step], on the list [game_recording['steps']]; the response
    [result] of the server is not read. *)
Definition _record_step (action : string) (before_state after_state : snapshot)
    (result : option action_response) (steps : list step_data)
  : list step_data :=
  steps ++
  [mkStep (Z.of_nat (length steps) + 1) action before_state after_state
     (snap_performance after_state - snap_performance before_state)
     (mkRecordedPerception (snap_agent_position before_state)
        (snap_is_dirty before_state) (snap_actions_remaining before_state))].

(** What a getter of the replay returns: the dictionary
    [{'is_finished': True}], or a member of the current step. *)
Inductive replay_view (A : Type) :=
  | ReplayFinished
  | ReplayMember (a : A).
Arguments ReplayFinished {A}.
Arguments ReplayMember {A} a.

(** [_get_replay_perception] and [_get_replay_state]; [replay_data] is
    [None] when no file was loaded, and otherwise the list
    [replay_data['steps']]; [replay_step] counts from 0. The steps are those
    that [_record_step] writes, which have the members ['perception'] and
    ['after_state'], so the defaults of [step_data.get] are not reached. *)
Definition _get_replay_perception (replay_data : option (list step_data))
    (replay_step : nat) : replay_view recorded_perception :=
  match replay_data with
  | None => ReplayFinished
  | Some steps =>
      match steps !! replay_step with
      | Some step_data => ReplayMember (step_perception step_data)
      | None => ReplayFinished
      end
  end.

Definition _get_replay_state (replay_data : option (list step_data))
    (replay_step : nat) : replay_view snapshot :=
  match replay_data with
  | None => ReplayFinished
  | Some steps =>
      match steps !! replay_step with
      | Some step_data => ReplayMember (after_state step_data)
      | None => ReplayFinished
      end
  end.

(** A run of the recorder: the actions with the snapshots taken before and
    after each of them. *)
Definition record_all (calls : list (string * snapshot * snapshot))
  : list step_data :=
  foldl (λ steps c, _record_step c.1.1 c.1.2 c.2 None steps) [] calls.

(** The counters after a run of actions, each with the success and the
    reward that the server answered, from the zeros of [__init__]. *)
Definition update_all (calls : list (string * bool * Z)) : efficiency :=
  foldl (λ self c, _update_efficiency_stats c.1.1 c.1.2 c.2 self)
    (mkEfficiency 0 0 0 0) calls.

(** * Properties *)

(** ** The fields a call leaves alone *)

Ltac case_ifs :=
  repeat match goal with
    | |- context [if ?b then _ else _] => destruct b eqn:?
    end.

Ltac accept_cases self action :=
  unfold accept_action;
  destruct (max_actions self <=? actions_taken self) eqn:?;
  [ simpl | destruct action; simpl;
      try (destruct (is_dirty _) as [[|]|] eqn:?; simpl;
           try destruct (grid_set _ _ _ _) eqn:?; simpl);
      case_ifs; simpl ].

Lemma accept_action_sizeX a e : sizeX (accept_action a e).2 = sizeX e.
Proof. accept_cases e a; reflexivity. Qed.

Lemma accept_action_sizeY a e : sizeY (accept_action a e).2 = sizeY e.
Proof. accept_cases e a; reflexivity. Qed.

Lemma accept_action_max_actions a e :
  max_actions (accept_action a e).2 = max_actions e.
Proof. accept_cases e a; reflexivity. Qed.

Lemma accept_action_completion_reason a e :
  completion_reason (accept_action a e).2 = completion_reason e.
Proof. accept_cases e a; reflexivity. Qed.

Lemma record_reason_frame r e :
  sizeX (record_reason r e) = sizeX e ∧ sizeY (record_reason r e) = sizeY e ∧
  grid (record_reason r e) = grid e ∧
  agent_x (record_reason r e) = agent_x e ∧
  agent_y (record_reason r e) = agent_y e ∧
  dirt_rate (record_reason r e) = dirt_rate e ∧
  performance (record_reason r e) = performance e ∧
  actions_taken (record_reason r e) = actions_taken e ∧
  max_actions (record_reason r e) = max_actions e.
Proof. unfold record_reason. destruct (completion_reason e); simpl; tauto. Qed.

Lemma is_finished_frame e :
  let e' := (is_finished e).2 in
  sizeX e' = sizeX e ∧ sizeY e' = sizeY e ∧ grid e' = grid e ∧
  agent_x e' = agent_x e ∧ agent_y e' = agent_y e ∧
  dirt_rate e' = dirt_rate e ∧ performance e' = performance e ∧
  actions_taken e' = actions_taken e ∧ max_actions e' = max_actions e.
Proof.
  unfold is_finished. case_ifs; simpl; try apply record_reason_frame. tauto.
Qed.

Lemma run_snoc cs c e : run (cs ++ [c]) e = do_call (run cs e) c.
Proof. unfold run. by rewrite foldl_app. Qed.

(** An induction principle on histories, from the last call. *)
Lemma run_ind (P : Environment → Prop) e0 :
  P e0 → (∀ e c, P e → P (do_call e c)) → ∀ cs, P (run cs e0).
Proof.
  intros H0 Hstep cs. induction cs as [|c cs IH] using rev_ind; [done|].
  rewrite run_snoc. by apply Hstep.
Qed.

(** ** Rejection once the step budget is spent *)

Lemma accept_action_rejected a e :
  max_actions e ≤ actions_taken e → accept_action a e = (Ok false, e).
Proof.
  intros H. unfold accept_action.
  destruct (max_actions e <=? actions_taken e) eqn:E; [done | lia].
Qed.

Lemma accept_action_counts a e :
  actions_taken e < max_actions e →
  (accept_action a e).1 ≠ Ok false ∧
  actions_taken (accept_action a e).2 = actions_taken e + 1.
Proof.
  intros H. accept_cases e a; try lia; split; (reflexivity || discriminate).
Qed.

Lemma is_finished_true_iff e :
  (is_finished e).1 = true ↔
  max_actions e ≤ actions_taken e ∨ all_dirt_cleaned e = true.
Proof.
  unfold is_finished. case_ifs; simpl; split; intros; try done;
    try (left; lia); try (by right).
  destruct H as [H|H]; [lia | congruence].
Qed.

Lemma non_terminal_has_steps e :
  (is_finished e).1 = false → actions_taken e < max_actions e.
Proof.
  intros H. destruct (Z.lt_ge_cases (actions_taken e) (max_actions e)); [done|].
  assert ((is_finished e).1 = true) by (apply is_finished_true_iff; left; lia).
  congruence.
Qed.

Lemma reason_sound_step e c : reason_sound e → reason_sound (do_call e c).
Proof.
  unfold reason_sound. intros IH. destruct c as [a|]; simpl.
  - rewrite accept_action_completion_reason, accept_action_max_actions.
    intros Hr. specialize (IH Hr). by rewrite accept_action_rejected.
  - destruct (is_finished_frame e) as (_&_&_&_&_&_&_&Ht&Hm). simpl in *.
    rewrite Ht, Hm. unfold is_finished, record_reason.
    destruct (max_actions e <=? actions_taken e) eqn:E; [lia|].
    destruct (all_dirt_cleaned e); simpl; [|done].
    destruct (completion_reason e) eqn:Er; simpl; [by rewrite Er | done].
Qed.

(** ** The position stays on the grid *)

Lemma accept_action_in_bounds a e : in_bounds e → in_bounds (accept_action a e).2.
Proof.
  unfold in_bounds. accept_cases e a; simpl; intros; lia.
Qed.

Lemma do_call_in_bounds e c : in_bounds e → in_bounds (do_call e c).
Proof.
  destruct c as [a|]; simpl; [apply accept_action_in_bounds|].
  unfold in_bounds. destruct (is_finished_frame e) as (->&->&_&->&->&_).
  done.
Qed.

(** C5. From an initial position on the grid, every history of calls leaves
    the agent on the grid. *)
Theorem position_stays_in_bounds (e0 : Environment) (cs : list call) :
  0 ≤ agent_x e0 < sizeX e0 → 0 ≤ agent_y e0 < sizeY e0 →
  0 ≤ agent_x (run cs e0) < sizeX (run cs e0) ∧
  0 ≤ agent_y (run cs e0) < sizeY (run cs e0).
Proof.
  intros Hx Hy.
  apply (run_ind in_bounds e0 (conj Hx Hy) do_call_in_bounds cs).
Qed.

Lemma position_stays_in_bounds_witness :
  0 ≤ agent_x (run [CallAccept LEFT; CallAccept DOWN; CallAccept DOWN;
                    CallAccept RIGHT; CallAccept RIGHT; CallAccept UP] world_2x2)
    < 2 ∧
  0 ≤ agent_y (run [CallAccept LEFT; CallAccept DOWN; CallAccept DOWN;
                    CallAccept RIGHT; CallAccept RIGHT; CallAccept UP] world_2x2)
    < 2.
Proof.
  apply (position_stays_in_bounds world_2x2); simpl; lia.
Defined.

(** ** Moving into the boundary *)

Lemma bump_consumes_step a e :
  actions_taken e < max_actions e → into_boundary a e = true →
  accept_action a e = (Ok true, set_actions_taken (actions_taken e + 1) e).
Proof.
  intros Hlt Hb. unfold accept_action.
  destruct (max_actions e <=? actions_taken e) eqn:E; [lia|].
  destruct a; simpl in *; try discriminate; case_ifs; try reflexivity; lia.
Qed.

(** C6. In a non-terminal state, a movement into the boundary reports
    success, leaves the position where it was and consumes one step. *)
Theorem move_into_boundary (e : Environment) (a : Action) :
  (is_finished e).1 = false →
  into_boundary a e = true →
  (accept_action a e).1 = Ok true ∧
  get_agent_position (accept_action a e).2 = get_agent_position e ∧
  actions_taken (accept_action a e).2 = actions_taken e + 1.
Proof.
  intros Hn Hb. apply non_terminal_has_steps in Hn.
  by rewrite (bump_consumes_step a e Hn Hb).
Qed.

Lemma move_into_boundary_witness :
  (accept_action LEFT world_2x2).1 = Ok true ∧
  get_agent_position (accept_action LEFT world_2x2).2 = (0, 0) ∧
  actions_taken (accept_action LEFT world_2x2).2 = 0 + 1.
Proof.
  apply (move_into_boundary world_2x2 LEFT); reflexivity.
Defined.

(** ** Step counter and performance *)

Lemma accept_action_performance a e :
  performance e ≤ performance (accept_action a e).2.
Proof. accept_cases e a; lia. Qed.

Lemma do_call_performance e c : performance e ≤ performance (do_call e c).
Proof.
  destruct c as [a|]; simpl; [apply accept_action_performance|].
  destruct (is_finished_frame e) as (_&_&_&_&_&_&->&_). done.
Qed.

Lemma run_performance cs e0 : performance e0 ≤ performance (run cs e0).
Proof.
  apply (run_ind (λ e, performance e0 ≤ performance e)); [done|].
  intros e c H. pose proof (do_call_performance e c). lia.
Qed.

Lemma accept_action_within_budget a e :
  within_budget e → within_budget (accept_action a e).2.
Proof.
  unfold within_budget. intros [H1 H2].
  rewrite accept_action_max_actions. split; [|done].
  destruct (Z.lt_ge_cases (actions_taken e) (max_actions e)) as [Hlt|Hge].
  - destruct (accept_action_counts a e Hlt) as [_ ->]. lia.
  - rewrite accept_action_rejected by lia. simpl. lia.
Qed.

Lemma do_call_within_budget e c : within_budget e → within_budget (do_call e c).
Proof.
  destruct c as [a|]; simpl; [apply accept_action_within_budget|].
  unfold within_budget.
  destruct (is_finished_frame e) as (_&_&_&_&_&_&_&->&->). done.
Qed.

(** C8. Along every history of a session that starts within its budget of
    1000 steps, a call of [accept_action] that is not rejected adds exactly
    one step, a rejected call changes nothing, the step counter never
    exceeds 1000, and the performance never decreases. *)
Theorem steps_and_performance (e0 : Environment) (cs : list call) (a : Action) :
  actions_taken e0 ≤ max_actions e0 → max_actions e0 = 1000 →
  ((accept_action a (run cs e0)).1 ≠ Ok false →
     actions_taken (accept_action a (run cs e0)).2
       = actions_taken (run cs e0) + 1) ∧
  ((accept_action a (run cs e0)).1 = Ok false →
     (accept_action a (run cs e0)).2 = run cs e0) ∧
  actions_taken (run cs e0) ≤ 1000 ∧
  actions_taken (accept_action a (run cs e0)).2 ≤ 1000 ∧
  performance e0 ≤ performance (run cs e0) ∧
  performance (run cs e0) ≤ performance (accept_action a (run cs e0)).2.
Proof.
  intros H1 H2.
  assert (Hb : within_budget (run cs e0)).
  { apply (run_ind within_budget e0 (conj H1 H2) do_call_within_budget). }
  pose proof (accept_action_within_budget a _ Hb) as Hb'.
  destruct Hb as [Hb1 Hb2], Hb' as [Hb1' Hb2'].
  repeat split; try lia.
  - intros Hr.
    destruct (Z.lt_ge_cases (actions_taken (run cs e0)) (max_actions (run cs e0)))
      as [Hlt|Hge].
    + by apply accept_action_counts.
    + rewrite accept_action_rejected in Hr by lia. done.
  - intros Hr.
    destruct (Z.lt_ge_cases (actions_taken (run cs e0)) (max_actions (run cs e0)))
      as [Hlt|Hge].
    + by destruct (accept_action_counts a _ Hlt).
    + by rewrite accept_action_rejected by lia.
  - apply run_performance.
  - apply accept_action_performance.
Qed.

Lemma steps_and_performance_witness :
  actions_taken (accept_action SUCK (run [CallAccept DOWN; CallFinished] world_2x2)).2
    = actions_taken (run [CallAccept DOWN; CallFinished] world_2x2) + 1.
Proof.
  apply (steps_and_performance world_2x2 [CallAccept DOWN; CallFinished] SUCK);
    [simpl; lia | reflexivity | vm_compute; discriminate].
Defined.

(** ** Cells and the grid *)

Lemma elem_of_range k n : k ∈ range n ↔ 0 ≤ k < n.
Proof.
  unfold range. rewrite list_elem_of_fmap. split.
  - intros (i & -> & Hi%elem_of_seq). lia.
  - intros H. exists (Z.to_nat k). split; [lia | apply elem_of_seq; lia].
Qed.

Lemma NoDup_range n : NoDup (range n).
Proof.
  unfold range. apply NoDup_fmap_2; [|apply NoDup_seq].
  intros i j. lia.
Qed.

Lemma elem_of_cells x y sx sy : (x, y) ∈ cells sx sy ↔ 0 ≤ x < sx ∧ 0 ≤ y < sy.
Proof.
  unfold cells. rewrite list_elem_of_bind. split.
  - intros (x' & (y' & Hin & Hy)%list_elem_of_bind & Hx).
    apply list_elem_of_singleton in Hin. inversion Hin; subst.
    by rewrite <- !elem_of_range.
  - intros [Hx Hy]. exists x. rewrite list_elem_of_bind, !elem_of_range.
    split; [|done]. exists y. by rewrite list_elem_of_singleton, elem_of_range.
Qed.

Lemma NoDup_cells sx sy : NoDup (cells sx sy).
Proof.
  unfold cells. apply NoDup_bind; [| |apply NoDup_range].
  - intros x1 x2 [x y] _ _ (y1 & H1 & _)%list_elem_of_bind
      (y2 & H2 & _)%list_elem_of_bind.
    apply list_elem_of_singleton in H1, H2. congruence.
  - intros x _. apply NoDup_bind; [| |apply NoDup_range].
    + intros y1 y2 c _ _ H1 H2.
      apply list_elem_of_singleton in H1, H2. congruence.
    + intros y _. apply NoDup_singleton.
Qed.

Lemma length_bind_const {A B} (f : A → list B) (l : list A) (m : nat) :
  (∀ x, length (f x) = m) → length (l ≫= f) = (length l * m)%nat.
Proof.
  intros Hf. induction l as [|x l IH]; csimpl; [done|].
  rewrite length_app, IH, Hf. lia.
Qed.

Lemma length_range n : length (range n) = Z.to_nat n.
Proof. unfold range. by rewrite length_fmap, length_seq. Qed.

Lemma length_cells sx sy :
  0 ≤ sx → 0 ≤ sy → Z.of_nat (length (cells sx sy)) = sx * sy.
Proof.
  intros Hx Hy. unfold cells.
  rewrite (length_bind_const _ _ (Z.to_nat sy)), length_range; [lia|].
  intros x. rewrite (length_bind_const _ _ 1%nat), length_range; [lia|done].
Qed.

Lemma np_index_in_range n i :
  0 ≤ i < Z.of_nat n → np_index n i = Ok (Z.to_nat i).
Proof.
  intros H. unfold np_index.
  by rewrite (proj2 (Z.leb_le 0 i)), (proj2 (Z.ltb_lt i _)) by lia.
Qed.

Lemma grid_get_shaped sx sy g y x :
  grid_shaped sx sy g → 0 ≤ x < sx → 0 ≤ y < sy →
  ∃ row v, g !! Z.to_nat y = Some row ∧ row !! Z.to_nat x = Some v ∧
    Z.of_nat (length row) = sx ∧
    grid_get g y x = Ok v ∧ (v = 0 ∨ v = 1).
Proof.
  intros [Hlen Hrows] Hx Hy.
  destruct (lookup_lt_is_Some_2 g (Z.to_nat y)) as [row Hrow]; [lia|].
  destruct (Forall_lookup_1 _ _ _ _ Hrows Hrow) as [Hrl Hvals].
  destruct (lookup_lt_is_Some_2 row (Z.to_nat x)) as [v Hv]; [lia|].
  exists row, v. split_and!; try done.
  - unfold grid_get, np_row. rewrite np_index_in_range by lia. simpl.
    rewrite Hrow. simpl. rewrite np_index_in_range by lia. simpl.
    by rewrite Hv.
  - apply (Forall_lookup_1 _ _ _ _ Hvals Hv).
Qed.

Lemma grid_set_shaped sx sy g y x v :
  grid_shaped sx sy g → 0 ≤ x < sx → 0 ≤ y < sy → v = 0 ∨ v = 1 →
  ∃ row, g !! Z.to_nat y = Some row ∧
    grid_set g y x v = Ok (<[Z.to_nat y := <[Z.to_nat x := v]> row]> g) ∧
    grid_shaped sx sy (<[Z.to_nat y := <[Z.to_nat x := v]> row]> g).
Proof.
  intros [Hlen Hrows] Hx Hy Hv.
  destruct (lookup_lt_is_Some_2 g (Z.to_nat y)) as [row Hrow]; [lia|].
  destruct (Forall_lookup_1 _ _ _ _ Hrows Hrow) as [Hrl Hvals].
  exists row. split_and!; [done| |].
  - unfold grid_set, np_row. rewrite np_index_in_range by lia. simpl.
    rewrite Hrow. simpl. by rewrite np_index_in_range by lia.
  - split; [by rewrite length_insert|].
    apply Forall_insert; [done|]. rewrite length_insert. split; [done|].
    by apply Forall_insert.
Qed.

(** Reading a cell after a write: the written cell holds the new value and
    every other cell of the grid its old one. *)
Lemma grid_get_insert sx sy g y x v row y' x' :
  grid_shaped sx sy g → 0 ≤ x < sx → 0 ≤ y < sy →
  g !! Z.to_nat y = Some row → 0 ≤ x' < sx → 0 ≤ y' < sy →
  grid_get (<[Z.to_nat y := <[Z.to_nat x := v]> row]> g) y' x'
  = if decide ((x', y') = (x, y)) then Ok v else grid_get g y' x'.
Proof.
  intros [Hlen Hrows] Hx Hy Hrow Hx' Hy'.
  destruct (Forall_lookup_1 _ _ _ _ Hrows Hrow) as [Hrl _].
  unfold grid_get, np_row. rewrite length_insert.
  rewrite !np_index_in_range by lia. simpl.
  destruct (decide (Z.to_nat y = Z.to_nat y')) as [Ey|Ey].
  - rewrite <- Ey, list_lookup_insert_eq by lia. simpl.
    rewrite Hrow. simpl. rewrite length_insert.
    rewrite !np_index_in_range by lia. simpl.
    destruct (decide (Z.to_nat x = Z.to_nat x')) as [Ex|Ex].
    + rewrite <- Ex, list_lookup_insert_eq by lia.
      rewrite decide_True; [done | f_equal; lia].
    + rewrite list_lookup_insert_ne by done.
      rewrite decide_False; [done | intros [=]; lia].
  - rewrite list_lookup_insert_ne by done.
    rewrite decide_False; [done | intros [=]; lia].
Qed.

Lemma foldr_add_acc (l : list Z) (a : Z) :
  foldr Z.add a l = foldr Z.add 0 l + a.
Proof. induction l as [|x l IH]; simpl; [done | rewrite IH; lia]. Qed.

Lemma np_sum_cons row g : np_sum (row :: g) = foldr Z.add 0 row + np_sum g.
Proof. unfold np_sum. simpl. by rewrite foldr_app, foldr_add_acc. Qed.

Lemma sum_insert (l : list Z) (i : nat) (v old : Z) :
  l !! i = Some old →
  foldr Z.add 0 (<[i := v]> l) = foldr Z.add 0 l - old + v.
Proof.
  revert i. induction l as [|x l IH]; intros [|i] Hi; simpl in *; try done.
  - injection Hi as ->. lia.
  - rewrite (IH i Hi). lia.
Qed.

(** The sum of the grid after one cell is overwritten. *)
Lemma np_sum_insert g j i row v old :
  g !! j = Some row → row !! i = Some old →
  np_sum (<[j := <[i := v]> row]> g) = np_sum g - old + v.
Proof.
  revert j. induction g as [|r g IH]; intros [|j] Hj Hi; simpl in *; try done.
  - injection Hj as ->. rewrite !np_sum_cons, (sum_insert _ _ _ _ Hi). lia.
  - rewrite !np_sum_cons, (IH j Hj Hi). lia.
Qed.

Lemma filter_ext_elem {A} (P Q : A → Prop) `{!∀ x, Decision (P x)}
    `{!∀ x, Decision (Q x)} (l : list A) :
  (∀ x, x ∈ l → P x ↔ Q x) → filter P l = filter Q l.
Proof.
  induction l as [|a l IH]; intros Hext; [done|].
  rewrite !filter_cons.
  rewrite IH by (intros x Hx; apply Hext; by right).
  apply decide_ext, Hext. by left.
Qed.

Lemma length_filter_remove {A} `{!EqDecision A} (a : A) (l : list A) :
  NoDup l → a ∈ l → (length (filter (λ c, c ≠ a) l) + 1 = length l)%nat.
Proof.
  induction 1 as [|x l Hx Hnd IH]; intros Hin; [by apply elem_of_nil in Hin|].
  rewrite filter_cons. destruct (decide (x = a)) as [->|Hne].
  - rewrite decide_False by (intros ?; done). simpl.
    rewrite (filter_ext_elem _ (λ _, True)).
    + replace (filter (λ _, True) l) with l; [lia|].
      clear. induction l as [|y l IH]; [done|].
      rewrite filter_cons_True by done. by f_equal.
    + intros y Hy. split; [done|]. intros _ ->. done.
  - rewrite decide_True by done. simpl. rewrite IH; [done|].
    apply elem_of_cons in Hin as [->|]; done.
Qed.

Lemma well_formed_is_dirty e :
  well_formed e →
  ∃ v, grid_get (grid e) (agent_y e) (agent_x e) = Ok v ∧ (v = 0 ∨ v = 1) ∧
    is_dirty e = Ok (v =? 1).
Proof.
  intros [[Hx Hy] Hg].
  destruct (grid_get_shaped _ _ _ _ _ Hg Hx Hy) as (row & v & _ & _ & _ & Hget & Hv).
  exists v. split_and!; try done. unfold is_dirty. by rewrite Hget.
Qed.

(** What [suck] does where it is not rejected. *)
Lemma suck_dirty e :
  well_formed e → actions_taken e < max_actions e → is_dirty e = Ok true →
  ∃ row, grid e !! Z.to_nat (agent_y e) = Some row ∧
    row !! Z.to_nat (agent_x e) = Some 1 ∧
    accept_action SUCK e
    = (Ok true,
       set_performance (performance e + 1)
         (set_grid (<[Z.to_nat (agent_y e) := <[Z.to_nat (agent_x e) := 0]> row]> (grid e))
            (set_actions_taken (actions_taken e + 1) e))).
Proof.
  intros [[Hx Hy] Hg] Hlt Hd.
  destruct (grid_set_shaped _ _ _ _ _ 0 Hg Hx Hy) as (row & Hrow & Hset & _);
    [by left|].
  exists row. split; [done|]. split.
  { destruct (grid_get_shaped _ _ _ _ _ Hg Hx Hy)
      as (row' & v & Hrow' & Hv & _ & Hget & _).
    unfold is_dirty in Hd. rewrite Hget in Hd. simpl in Hd.
    injection Hd as Hd%Z.eqb_eq. congruence. }
  unfold accept_action.
  destruct (max_actions e <=? actions_taken e) eqn:E; [lia|].
  change (is_dirty (set_actions_taken _ e)) with (is_dirty e). rewrite Hd.
  simpl. by rewrite Hset.
Qed.

Lemma suck_clean e :
  actions_taken e < max_actions e → is_dirty e = Ok false →
  accept_action SUCK e = (Ok true, set_actions_taken (actions_taken e + 1) e).
Proof.
  intros Hlt Hd. unfold accept_action.
  destruct (max_actions e <=? actions_taken e) eqn:E; [lia|].
  change (is_dirty (set_actions_taken _ e)) with (is_dirty e). by rewrite Hd.
Qed.

(** C7. In a non-terminal state, [suck] reports success; on a dirty cell it
    removes exactly the agent's cell from the dirt set, which loses one
    element, and adds one to the performance; on a clean cell it changes
    neither the grid nor the performance. *)
Theorem suck_cleans_current_cell (e : Environment) :
  well_formed e → (is_finished e).1 = false →
  (accept_action SUCK e).1 = Ok true ∧
  (is_dirty e = Ok true →
     get_agent_position e ∈ dirt_cells e ∧
     dirt_cells (accept_action SUCK e).2
       = filter (λ c, c ≠ get_agent_position e) (dirt_cells e) ∧
     (length (dirt_cells (accept_action SUCK e).2) + 1
       = length (dirt_cells e))%nat ∧
     np_sum (grid (accept_action SUCK e).2) = np_sum (grid e) - 1 ∧
     performance (accept_action SUCK e).2 = performance e + 1) ∧
  (is_dirty e = Ok false →
     grid (accept_action SUCK e).2 = grid e ∧
     dirt_cells (accept_action SUCK e).2 = dirt_cells e ∧
     performance (accept_action SUCK e).2 = performance e) ∧
  (is_dirty e = Ok true ∨ is_dirty e = Ok false).
Proof.
  intros Hwf Hn. apply non_terminal_has_steps in Hn.
  destruct (well_formed_is_dirty e Hwf) as (v & Hget & Hv & Hd).
  assert (Hin : get_agent_position e ∈ cells (sizeX e) (sizeY e)).
  { apply elem_of_cells, Hwf. }
  split_and!.
  - destruct Hv as [-> | ->]; simpl in Hd.
    + by rewrite suck_clean.
    + by destruct (suck_dirty e Hwf Hn Hd) as (row & _ & _ & ->).
  - intros Hdirty.
    destruct (suck_dirty e Hwf Hn Hdirty) as (row & Hrow & Hone & ->).
    simpl. destruct Hwf as [[Hx Hy] Hg].
    assert (Hmem : get_agent_position e ∈ dirt_cells e).
    { apply list_elem_of_filter. split; [|done].
      unfold dirty_at, get_agent_position. simpl. rewrite Hget.
      rewrite Hd in Hdirty. congruence. }
    assert (Heq : dirt_cells
        (set_performance (performance e + 1)
           (set_grid (<[Z.to_nat (agent_y e) := <[Z.to_nat (agent_x e) := 0]> row]> (grid e))
              (set_actions_taken (actions_taken e + 1) e)))
        = filter (λ c, c ≠ get_agent_position e) (dirt_cells e)).
    { unfold dirt_cells. simpl. rewrite list_filter_filter.
      apply filter_ext_elem. intros [x y] Hc. apply elem_of_cells in Hc as [Hcx Hcy].
      unfold dirty_at, get_agent_position. simpl.
      rewrite (grid_get_insert _ _ _ _ _ _ _ _ _ Hg Hx Hy Hrow Hcx Hcy).
      destruct (decide ((x, y) = (agent_x e, agent_y e))) as [E|E].
      - simpl. split; [done | intros [? _]; done].
      - split; [done | tauto]. }
    split_and!; [done | done | | | done].
    + rewrite Heq. apply length_filter_remove; [|done].
      apply NoDup_filter, NoDup_cells.
    + rewrite (np_sum_insert _ _ _ _ 0 1 Hrow Hone). lia.
  - intros Hclean. by rewrite suck_clean.
  - destruct Hv as [-> | ->]; simpl in Hd; auto.
Qed.

Lemma suck_cleans_current_cell_witness :
  (accept_action SUCK (run [CallAccept DOWN] world_2x2)).1 = Ok true ∧
  np_sum (grid (accept_action SUCK (run [CallAccept DOWN] world_2x2)).2) = 3 - 1 ∧
  performance (accept_action SUCK (run [CallAccept DOWN] world_2x2)).2 = 0 + 1.
Proof.
  assert (Hwf : well_formed (run [CallAccept DOWN] world_2x2)).
  { apply (bool_decide_unpack _). vm_compute. exact I. }
  destruct (suck_cleans_current_cell (run [CallAccept DOWN] world_2x2) Hwf eq_refl)
    as (Hs & Hd & _).
  destruct (Hd eq_refl) as (_ & _ & _ & Hsum & Hperf).
  split; [exact Hs|]. split; [exact Hsum | exact Hperf].
Defined.

(** ** Well-formed sessions stay well-formed *)

Lemma accept_action_move a e :
  a ≠ SUCK →
  grid (accept_action a e).2 = grid e ∧ ∃ b, (accept_action a e).1 = Ok b.
Proof. intros Ha. accept_cases e a; try done; eauto. Qed.

Lemma accept_action_move_performance a e :
  a ≠ SUCK → performance (accept_action a e).2 = performance e.
Proof. intros Ha. accept_cases e a; done. Qed.

Lemma accept_action_well_formed a e :
  well_formed e →
  well_formed (accept_action a e).2 ∧ ∃ b, (accept_action a e).1 = Ok b.
Proof.
  intros Hwf. destruct (decide (a = SUCK)) as [->|Ha].
  - destruct (Z.lt_ge_cases (actions_taken e) (max_actions e)) as [Hlt|Hge].
    + destruct (well_formed_is_dirty e Hwf) as (v & _ & [-> | ->] & Hd);
        simpl in Hd.
      * rewrite suck_clean by done. split; [done | eauto].
      * destruct (suck_dirty e Hwf Hlt Hd) as (row & Hrow & _ & ->).
        split; [|eauto]. destruct Hwf as [[Hx Hy] Hg]. split; [done|]. simpl.
        destruct (grid_set_shaped _ _ _ _ _ 0 Hg Hx Hy) as (row' & Hrow' & _ & Hs);
          [by left|].
        congruence.
    + rewrite accept_action_rejected by lia. split; [done | eauto].
  - destruct (accept_action_move a e Ha) as [Hg Hb]. split; [|done].
    split; [by apply accept_action_in_bounds, Hwf|].
    rewrite accept_action_sizeX, accept_action_sizeY, Hg. apply Hwf.
Qed.

Lemma is_finished_well_formed e : well_formed e → well_formed (is_finished e).2.
Proof.
  unfold well_formed, in_bounds.
  destruct (is_finished_frame e) as (->&->&->&->&->&_). done.
Qed.

Lemma do_call_well_formed e c : well_formed e → well_formed (do_call e c).
Proof.
  destruct c; simpl;
    [apply accept_action_well_formed | apply is_finished_well_formed].
Qed.

(** ** Rejection and acceptance *)

(** C1 (amended). A session whose recorded reason is "max_steps_reached",
    or whose step budget is spent, rejects every further action: the call
    returns [False] and the environment is the same, field by field. A
    well-formed session with steps remaining accepts every action, whatever
    reason is recorded, so also when it is terminal with "all_cleaned": the
    call returns [True], consumes a step and keeps the recorded reason. *)
Theorem max_steps_session_rejects (e0 : Environment) (cs : list call) (a : Action) :
  completion_reason e0 = None →
  (completion_reason (run cs e0) = Some "max_steps_reached"%string ∨
     max_actions (run cs e0) ≤ actions_taken (run cs e0) →
   accept_action a (run cs e0) = (Ok false, run cs e0)) ∧
  (well_formed e0 →
   actions_taken (run cs e0) < max_actions (run cs e0) →
   (accept_action a (run cs e0)).1 = Ok true ∧
   actions_taken (accept_action a (run cs e0)).2
   = actions_taken (run cs e0) + 1 ∧
   completion_reason (accept_action a (run cs e0)).2
   = completion_reason (run cs e0)).
Proof.
  intros H0. split.
  - intros H. apply accept_action_rejected.
    destruct H as [H|H]; [|done].
    assert (Hs : reason_sound e0) by (unfold reason_sound; by rewrite H0).
    by apply (run_ind reason_sound e0 Hs reason_sound_step cs).
  - intros Hwf Hlt.
    assert (Hwf' : well_formed (run cs e0))
      by (by apply (run_ind well_formed e0 Hwf do_call_well_formed cs)).
    destruct (accept_action_well_formed a _ Hwf') as [_ [b Hb]].
    destruct (accept_action_counts a _ Hlt) as [Hne Hc].
    split_and!; [|done|apply accept_action_completion_reason].
    rewrite Hb in Hne |- *. by destruct b.
Qed.

Lemma max_steps_session_rejects_witness :
  accept_action SUCK (run (replicate 1000 (CallAccept IDLE) ++ [CallFinished]) world_2x2)
  = (Ok false, run (replicate 1000 (CallAccept IDLE) ++ [CallFinished]) world_2x2) ∧
  (accept_action IDLE (run [CallAccept SUCK; CallFinished] world_1x1)).1 = Ok true.
Proof.
  split.
  - apply (max_steps_session_rejects world_2x2); [reflexivity|].
    left. vm_compute. reflexivity.
  - apply (max_steps_session_rejects world_1x1 [CallAccept SUCK; CallFinished] IDLE);
      [reflexivity | apply (bool_decide_unpack _); vm_compute; exact I
      | vm_compute; reflexivity].
Defined.

(** C1, as stated, fails: a session recorded as "all_cleaned" is terminal,
    yet the next action is accepted and consumes a step. *)
Lemma all_cleaned_session_accepts :
  completion_reason cleaned_session = Some "all_cleaned"%string ∧
  (is_finished cleaned_session).1 = true ∧
  (accept_action IDLE cleaned_session).1 = Ok true ∧
  actions_taken (accept_action IDLE cleaned_session).2
    = actions_taken cleaned_session + 1 ∧
  accept_action IDLE cleaned_session ≠ (Ok false, cleaned_session).
Proof. vm_compute. repeat split; discriminate. Qed.

(** ** Sensing *)

Lemma is_finished_reason e :
  completion_reason e ≠ None ∨ (is_finished e).1 = false →
  completion_reason (is_finished e).2 = completion_reason e.
Proof.
  unfold is_finished, record_reason. intros H.
  case_ifs; simpl in *; destruct (completion_reason e) eqn:E; simpl; try done;
    by destruct H.
Qed.

(** What [is_finished] records in a finished session without a reason. *)
Lemma is_finished_records e :
  completion_reason e = None → (is_finished e).1 = true →
  completion_reason (is_finished e).2
  = Some (if max_actions e <=? actions_taken e
          then "max_steps_reached"%string else "all_cleaned"%string).
Proof.
  unfold is_finished, record_reason. intros Hn.
  destruct (max_actions e <=? actions_taken e); simpl; [by rewrite Hn|].
  destruct (all_dirt_cleaned e); simpl; [by rewrite Hn | done].
Qed.

(** C9 (amended). [sense] leaves the size, the grid, the position, the dirt
    rate, the performance and the step counters of the session as they
    were, and every other session untouched; it can only record the
    completion reason, and it keeps a reason that is already recorded and
    records none for a session that is not finished. When the dirt flag can
    be read (as in every well-formed session), the answer is the perception
    of the session, and for a finished session without a reason the call
    records one, which is the reason that it reports: "max_steps_reached"
    when the step budget is spent, and "all_cleaned" otherwise. *)
Theorem sense_changes_reason_only (env_id : string) (now : Z)
    (srv : EnvironmentServer) (en : entry) :
  srv !! env_id = Some en →
  ∃ e', (sense_environment env_id now srv).2 !! env_id
        = Some (mkEntry e' (created_at en) now) ∧
    sizeX e' = sizeX (environment en) ∧
    sizeY e' = sizeY (environment en) ∧
    grid e' = grid (environment en) ∧
    agent_x e' = agent_x (environment en) ∧
    agent_y e' = agent_y (environment en) ∧
    dirt_rate e' = dirt_rate (environment en) ∧
    performance e' = performance (environment en) ∧
    actions_taken e' = actions_taken (environment en) ∧
    max_actions e' = max_actions (environment en) ∧
    (completion_reason (environment en) ≠ None ∨
       (is_finished (environment en)).1 = false →
     completion_reason e' = completion_reason (environment en)) ∧
    (∀ other, other ≠ env_id →
       (sense_environment env_id now srv).2 !! other = srv !! other) ∧
    (∀ d, is_dirty (environment en) = Ok d →
       (sense_environment env_id now srv).1
       = Sensed (mkPerception (get_agent_position (environment en)) d
                   (get_actions_remaining (environment en))
                   (is_finished (environment en)).1 (completion_reason e')) ∧
       (completion_reason (environment en) = None →
        (is_finished (environment en)).1 = true →
        completion_reason e'
        = Some (if max_actions (environment en) <=? actions_taken (environment en)
                then "max_steps_reached"%string else "all_cleaned"%string))).
Proof.
  intros Hen. unfold sense_environment, get_environment. rewrite Hen. simpl.
  destruct (is_dirty (environment en)) as [d|x] eqn:Hd.
  - pose proof (is_finished_frame (environment en)) as Hfr.
    pose proof (is_finished_reason (environment en)) as Hr.
    pose proof (is_finished_records (environment en)) as Hrec.
    destruct (is_finished (environment en)) as [fin e'] eqn:Hf. simpl.
    exists e'. unfold store. rewrite alter_insert_eq. simpl.
    simpl in Hfr, Hr, Hrec.
    destruct Hfr as (?&?&?&?&?&?&?&?&?).
    split_and!; try done; [apply lookup_insert_eq| |].
    + intros other Ho. by rewrite lookup_insert_ne.
    + by intros d' [= <-].
  - exists (environment en). simpl.
    split_and!; try done; [apply lookup_insert_eq|].
    intros other Ho. by rewrite lookup_insert_ne.
Qed.

Lemma sense_changes_reason_only_witness :
  ∃ e', (sense_environment "w" 7 clean_server).2 !! "w"%string
        = Some (mkEntry e' 0 7) ∧
    grid e' = replicate 8 (replicate 8 0) ∧
    completion_reason e' = Some "all_cleaned"%string.
Proof.
  destruct (sense_changes_reason_only "w" 7 clean_server (mkEntry world_clean 0 0) eq_refl)
    as (e' & H1 & _ & _ & H2 & _ & _ & _ & _ & _ & _ & _ & _ & H3).
  exists e'. split; [exact H1|]. split; [exact H2|].
  destruct (H3 false eq_refl) as [_ H4]. exact (H4 eq_refl eq_refl).
Defined.

(** C9, as stated, fails: sensing a fresh session without dirt records the
    completion reason in the session. *)
Lemma sense_records_reason :
  completion_reason ∘ environment <$> clean_server !! "w"%string = Some None ∧
  completion_reason ∘ environment
    <$> (sense_environment "w" 7 clean_server).2 !! "w"%string
  = Some (Some "all_cleaned"%string).
Proof. vm_compute. done. Qed.

(** ** Validation of the action name *)

Lemma action_map_lookup n a : action_map !! n = Some a ↔ n = action_name a.
Proof.
  unfold action_map. simpl.
  rewrite !lookup_insert_Some. split.
  - intros H. repeat (destruct H as [[<- <-]|[_ H]]; [done|]). done.
  - intros ->. destruct a; simpl; naive_solver.
Qed.

Lemma action_map_None n : action_map !! n = None ↔ n ∉ action_names.
Proof.
  split.
  - intros Hn (a & -> & _)%list_elem_of_fmap.
    by rewrite (proj2 (action_map_lookup _ a) eq_refl) in Hn.
  - intros Hn. destruct (action_map !! n) as [a|] eqn:E; [|done].
    apply action_map_lookup in E as ->. destruct Hn.
    apply list_elem_of_fmap. exists a. split; [done|].
    destruct a; set_solver.
Qed.

(** C10. For a session of the registry, an action name whose lowercasing is
    the name of an action is accepted and that action is applied to the
    session; every other non-empty string is refused as an invalid action
    with the environment as it was (only the access time of the lookup is
    renewed). *)
Theorem action_name_validation {S : PyStr} (env_id s : string) (now : Z)
    (srv : EnvironmentServer) (en : entry) :
  srv !! env_id = Some en →
  (∀ a, str_lower s = action_name a → well_formed (environment en) →
     ∃ b r,
       (accept_action a (environment en)).1 = Ok b ∧
       execute_action env_id (Some s) now srv
       = (ActionDone r,
          <[env_id := mkEntry (is_finished (accept_action a (environment en)).2).2
                        (created_at en) now]> srv) ∧
       success r = b ∧ action r = s) ∧
  (s ≠ ""%string → str_lower s ∉ action_names →
     execute_action env_id (Some s) now srv
     = (BadRequest "Invalid action",
        <[env_id := mkEntry (environment en) (created_at en) now]> srv)).
Proof.
  intros Hen. split.
  - intros a Ha Hwf.
    assert (Hs : s ≠ ""%string).
    { intros ->. rewrite str_lower_empty in Ha. by destruct a. }
    destruct (accept_action_well_formed a _ Hwf) as [Hwf' [b Hb]].
    destruct (well_formed_is_dirty _ Hwf) as (v & _ & _ & Hd).
    destruct (well_formed_is_dirty _ Hwf') as (v' & _ & _ & Hd').
    exists b. unfold execute_action, get_environment. rewrite Hen.
    destruct s as [|c s]; [done|].
    rewrite (proj2 (action_map_lookup _ a) Ha), Hd.
    destruct (accept_action a (environment en)) as [r e1] eqn:Hacc.
    simpl in Hb, Hd'. subst r. rewrite Hd'. simpl.
    destruct (is_finished e1) as [fin e2] eqn:Hfin. simpl.
    unfold store. rewrite alter_insert_eq. simpl.
    eexists. split; [done|]. split; [reflexivity|done].
  - intros Hs Hn. unfold execute_action, get_environment. rewrite Hen.
    destruct s as [|c s]; [done|].
    by rewrite (proj2 (action_map_None _) Hn).
Qed.

Lemma action_name_validation_witness :
  (∃ b r,
     (accept_action SUCK world_2x2).1 = Ok b ∧
     execute_action (S := ascii_str) "w" (Some "SUCK"%string) 7 small_server
     = (ActionDone r,
        <["w"%string := mkEntry (is_finished (accept_action SUCK world_2x2).2).2 0 7]>
          small_server) ∧
     success r = b ∧ action r = "SUCK"%string) ∧
  execute_action (S := ascii_str) "w" (Some "jump"%string) 7 small_server
  = (BadRequest "Invalid action",
     <["w"%string := mkEntry world_2x2 0 7]> small_server).
Proof.
  destruct (action_name_validation (S := ascii_str) "w" "SUCK" 7 small_server
              (mkEntry world_2x2 0 0) eq_refl) as [Hok _].
  destruct (action_name_validation (S := ascii_str) "w" "jump" 7 small_server
              (mkEntry world_2x2 0 0) eq_refl) as [_ Hbad].
  split.
  - apply (Hok SUCK); [reflexivity|].
    apply (bool_decide_unpack _). vm_compute. exact I.
  - apply Hbad; [discriminate|].
    apply (bool_decide_unpack _). vm_compute. exact I.
Defined.

(** ** Rounding of the sample size

    The product of the number of cells and a rate between zero and one,
    rounded to binary64, is at most the number of cells. *)

Lemma digits2_pos_size p : digits2_pos p = Pos.size p.
Proof. induction p; simpl; congruence. Qed.

Lemma digits2_pos_bounds p :
  2 ^ (Z.pos (digits2_pos p) - 1) ≤ Z.pos p < 2 ^ Z.pos (digits2_pos p).
Proof.
  rewrite digits2_pos_size. split.
  - pose proof (Pos.size_le p) as H.
    apply Pos2Z.pos_le_pos in H. rewrite Pos2Z.inj_pow, (Pos2Z.inj_xO p) in H.
    assert (E : 2 ^ Z.pos (Pos.size p) = 2 * 2 ^ (Z.pos (Pos.size p) - 1)).
    { rewrite <- Z.pow_succ_r by lia. f_equal. lia. }
    lia.
  - pose proof (Pos.size_gt p) as H.
    apply Pos2Z.pos_lt_pos in H. by rewrite Pos2Z.inj_pow in H.
Qed.

Lemma shr_1_spec mrs :
  0 ≤ shr_m mrs →
  shr_m (shr_1 mrs) = Z.div2 (shr_m mrs) ∧
  inexact (shr_1 mrs) = Z.odd (shr_m mrs) || inexact mrs.
Proof.
  destruct mrs as [[|[p|p|]|p] r s]; unfold inexact; simpl; try done; lia.
Qed.

Lemma shr_1_shifted M j mrs :
  0 ≤ j → shifted M j mrs → shifted M (j + 1) (shr_1 mrs).
Proof.
  intros Hj (Hm & [Hlo Hhi] & Hin). unfold shifted.
  destruct (shr_1_spec mrs Hm) as [-> ->].
  rewrite Z.pow_add_r by lia. change (2 ^ 1) with 2.
  assert (0 < 2 ^ j) by (apply Z.pow_pos_nonneg; lia).
  pose proof (Z.div2_odd (shr_m mrs)) as Hd.
  destruct (Z.odd (shr_m mrs)); simpl in *.
  - split_and!; intros; nia.
  - split_and!; try (intros Hi; specialize (Hin Hi)); nia.
Qed.

Lemma iter_pos_invariant {A} (f : A → A) (Inv : Z → A → Prop) :
  (∀ j x, 0 ≤ j → Inv j x → Inv (j + 1) (f x)) →
  ∀ p j x, 0 ≤ j → Inv j x → Inv (j + Z.pos p) (SpecFloat.iter_pos f p x).
Proof.
  intros Hstep. induction p as [p IH|p IH|]; intros j x Hj Hx; simpl.
  - replace (j + Z.pos p~1) with (j + 1 + Z.pos p + Z.pos p) by lia.
    apply IH; [lia|]. apply IH; [lia|]. by apply Hstep.
  - replace (j + Z.pos p~0) with (j + Z.pos p + Z.pos p) by lia.
    apply IH; [lia|]. by apply IH.
  - by apply Hstep.
Qed.

Lemma shr_shifted M e k :
  0 ≤ M →
  let '(mrs, e') := shr (Build_shr_record M false false) e k in
  e' = e + Z.max k 0 ∧ shifted M (Z.max k 0) mrs.
Proof.
  intros HM. unfold shr.
  assert (H0 : shifted M 0 (Build_shr_record M false false)).
  { unfold shifted, inexact. simpl. split_and!; (lia || done). }
  destruct k as [|p|p]; simpl.
  - split; [lia | done].
  - split; [lia|].
    apply (iter_pos_invariant shr_1 (shifted M) (shr_1_shifted M) p 0); [lia|done].
  - split; [lia | done].
Qed.

Lemma round_nearest_even_shifted M j mrs :
  shifted M j mrs →
  let m := round_nearest_even (shr_m mrs) (loc_of_shr_record mrs) in
  0 ≤ m ∧ (m = shr_m mrs ∨ m = shr_m mrs + 1 ∧ shr_m mrs * 2 ^ j < M).
Proof.
  intros (Hm & _ & Hin). destruct mrs as [m [|] [|]]; unfold inexact in *;
    simpl in *; try destruct (Z.even m); split; try lia; auto.
Qed.

Lemma Zdigits2_le M b : 0 ≤ M < 2 ^ b → 0 ≤ b → Zdigits2 M ≤ b.
Proof.
  intros [H0 Hlt] Hb. destruct M as [|p|p]; simpl; [done| |lia].
  destruct (digits2_pos_bounds p) as [Hlo _].
  assert (H : 2 ^ (Z.pos (digits2_pos p) - 1) < 2 ^ b) by lia.
  apply Z.pow_lt_mono_r_iff in H; lia.
Qed.

(** One call of [shr_fexp] on a value at most [N * 2^(-E)]. *)
Lemma shr_fexp_exact_at_most N M E :
  0 ≤ N < 2 ^ 53 → E ≤ 0 → 0 ≤ M ≤ N * 2 ^ (- E) →
  let '(mrs, e') := shr_fexp Float.prec Float.emax M E loc_Exact in
  E ≤ e' ≤ 0 ∧ shifted M (e' - E) mrs.
Proof.
  intros HN HE HM. unfold shr_fexp. simpl shr_record_of_loc.
  pose proof (shr_shifted M E (fexp Float.prec Float.emax (Zdigits2 M + E) - E)
                ltac:(lia)) as Hs.
  destruct (shr _ _ _) as [mrs e']. destruct Hs as [-> Hs].
  assert (Hd : Zdigits2 M ≤ 53 + - E).
  { apply Zdigits2_le; [|lia]. rewrite Z.pow_add_r by lia.
    assert (0 < 2 ^ (- E)) by (apply Z.pow_pos_nonneg; lia). nia. }
  assert (Hf : fexp Float.prec Float.emax (Zdigits2 M + E) ≤ 0).
  { unfold fexp, SpecFloat.emin, Float.prec, Float.emax. lia. }
  split; [lia|].
  by replace (E + Z.max (fexp Float.prec Float.emax (Zdigits2 M + E) - E) 0 - E)
    with (Z.max (fexp Float.prec Float.emax (Zdigits2 M + E) - E) 0) by lia.
Qed.

Lemma pow2_split a b : 0 ≤ a → 0 ≤ b → 2 ^ (a + b) = 2 ^ a * 2 ^ b ∧ 0 < 2 ^ a ∧ 0 < 2 ^ b.
Proof.
  intros. rewrite Z.pow_add_r by lia.
  split_and!; [done | |]; apply Z.pow_pos_nonneg; lia.
Qed.

Lemma binary_round_aux_at_most N M E :
  0 ≤ N < 2 ^ 53 → E ≤ 0 → 0 ≤ M ≤ N * 2 ^ (- E) →
  at_most N (binary_round_aux Float.prec Float.emax false M E loc_Exact).
Proof.
  intros HN HE HM. unfold binary_round_aux.
  pose proof (shr_fexp_exact_at_most N M E HN HE HM) as H1.
  destruct (shr_fexp Float.prec Float.emax M E loc_Exact) as [mrs' e'].
  destruct H1 as [He' Hs'].
  pose proof (round_nearest_even_shifted _ _ _ Hs') as Hr. simpl in Hr.
  set (m1 := round_nearest_even (shr_m mrs') (loc_of_shr_record mrs')) in *.
  destruct Hs' as (Hq0 & [Hqlo Hqhi] & _).
  destruct (pow2_split (- e') (e' - E)) as (Hp & Hp1 & Hp2); [lia|lia|].
  replace (- e' + (e' - E)) with (- E) in Hp by lia.
  assert (Hm1 : 0 ≤ m1 ≤ N * 2 ^ (- e')).
  { destruct Hr as [Hr0 [-> | [-> Hlt]]]; split; try lia; nia. }
  pose proof (shr_fexp_exact_at_most N m1 e' HN ltac:(lia) Hm1) as H2.
  destruct (shr_fexp Float.prec Float.emax m1 e' loc_Exact) as [mrs'' e''].
  destruct H2 as [He'' (Hm2 & [Hlo2 _] & _)].
  destruct (pow2_split (- e'') (e'' - e')) as (Hp' & Hp1' & Hp2'); [lia|lia|].
  replace (- e'' + (e'' - e')) with (- e') in Hp' by lia.
  destruct (shr_m mrs'') as [|m|m] eqn:Em; simpl; [done| |lia].
  replace (e'' <=? Float.emax - Float.prec) with true
    by (symmetry; apply Z.leb_le; unfold Float.emax, Float.prec; lia).
  simpl. split; [lia | nia].
Qed.

Lemma to_int_at_most N f :
  0 ≤ N → at_most N f → ∃ n, Float.to_int f = Ok n ∧ 0 ≤ n ≤ N.
Proof.
  intros HN. destruct f as [s|s| |[|] m e]; simpl; try done.
  - exists 0. split; [done|lia].
  - intros [He Hm]. eexists. split; [done|].
    destruct (0 <=? e) eqn:E0.
    + apply Z.leb_le in E0. replace e with 0 in * by lia. simpl in *. lia.
    + assert (0 < 2 ^ (- e)) by (apply Z.pow_pos_nonneg; lia).
      rewrite Z.quot_div_nonneg by lia. split.
      * apply Z.div_pos; lia.
      * apply Z.div_le_upper_bound; lia.
Qed.

Lemma shl_align_value p ex' :
  let '(mz, ez) := shl_align p 0 ex' in
  ez ≤ 0 ∧ Z.pos mz = Z.pos p * 2 ^ (- ez).
Proof.
  unfold shl_align. destruct (ex' - 0) as [|d|d] eqn:E; simpl; try lia.
  assert (ex' = Z.neg d) as -> by lia. split; [lia|].
  change (Pos.iter xO p d) with (shift_pos d p).
  rewrite shift_pos_correct.
  change (2 ^ (- Z.neg d)) with (Z.pow_pos 2 d). lia.
Qed.

Lemma of_int_at_most n :
  0 ≤ n < 2 ^ 53 → ∃ f, Float.of_int n = Ok f ∧ at_most n f.
Proof.
  intros Hn. unfold Float.of_int, binary_normalize.
  destruct n as [|p|p]; [by eexists| |lia].
  unfold binary_round.
  pose proof (shl_align_value p (fexp Float.prec Float.emax (Z.pos (digits2_pos p) + 0))) as Ha.
  destruct (shl_align _ _ _) as [mz ez]. destruct Ha as [Hez Hmz].
  pose proof (binary_round_aux_at_most (Z.pos p) (Z.pos mz) ez Hn Hez
                ltac:(lia)) as Hr.
  destruct (binary_round_aux _ _ _ _ _ _) as [s|s| |s m e]; try done;
    by eexists.
Qed.

Lemma mul_at_most N f r :
  0 ≤ N < 2 ^ 53 → at_most N f → unit_rate r → at_most N (Float.mul f r).
Proof.
  intros HN. destruct f as [sf|sf| |[|] mf ef], r as [sr|sr| |[|] mr er];
    simpl; try done.
  intros [Hef Hmf] [Her Hmr].
  apply binary_round_aux_at_most; [done|lia|].
  destruct (pow2_split (- ef) (- er)) as (Hp & Hp1 & Hp2); [lia|lia|].
  replace (- (ef + er)) with (- ef + - er) by lia. rewrite Hp.
  rewrite Pos2Z.inj_mul. split; [lia|]. nia.
Qed.

Lemma SFleb_finite_pos m e q k :
  SFleb (S754_finite false m e) (S754_finite false q k) = true →
  e < k ∨ (e = k ∧ Z.pos m ≤ Z.pos q).
Proof.
  unfold SFleb, SFcompare.
  destruct (Z.compare_spec e k) as [->|Hlt|Hgt]; [|by left|done].
  change (Pos.compare_cont Eq m q) with (Pos.compare m q).
  destruct (Pos.compare_spec m q); [| |done]; intros _; right; lia.
Qed.

Lemma valid_rate_unit r :
  is_binary64 r →
  SFleb Float.zero r = true → SFleb r Float.one = true → unit_rate r.
Proof.
  destruct r as [s|s| |s m e]; [done | by destruct s | done |].
  intros Hv H0 H1. destruct s; [done|].
  unfold Float.one in H1. apply SFleb_finite_pos in H1.
  unfold is_binary64, valid_binary, bounded, canonical_mantissa in Hv.
  apply andb_prop in Hv as [Hc _]. apply Z.eqb_eq in Hc.
  destruct (digits2_pos_bounds m) as [_ Hhi].
  assert (Hd : Z.pos (digits2_pos m) ≤ 53).
  { unfold fexp, SpecFloat.emin, Float.prec, Float.emax in Hc. lia. }
  assert (Z.pos m < 2 ^ 53).
  { eapply Z.lt_le_trans; [exact Hhi|]. apply Z.pow_le_mono_r; lia. }
  unfold unit_rate. destruct H1 as [Hlt | [-> Hm]].
  - split; [lia|].
    assert (2 ^ 53 ≤ 2 ^ (- e)) by (apply Z.pow_le_mono_r; lia). lia.
  - split; [lia|]. change (2 ^ (- -52)) with 4503599627370496. lia.
Qed.

Lemma num_dirty_bounds sx sy rate :
  1 ≤ sx ≤ 256 → 1 ≤ sy ≤ 256 → unit_rate rate →
  ∃ n, num_dirty sx sy rate = Ok n ∧ 0 ≤ n ≤ sx * sy.
Proof.
  intros Hx Hy Hr.
  assert (HN : 0 ≤ sx * sy < 2 ^ 53).
  { change (2 ^ 53) with 9007199254740992. nia. }
  destruct (of_int_at_most _ HN) as (f & Hf & Hle).
  unfold num_dirty. rewrite Hf. simpl.
  apply to_int_at_most; [lia|]. by apply mul_at_most.
Qed.

(** ** The generator that serves as an instance *)

Lemma lcg_draw_spec k : ∀ pool g,
  (k ≤ length pool)%nat →
  length (lcg_draw pool k g).1 = k ∧ (lcg_draw pool k g).1 ⊆+ pool.
Proof.
  induction k as [|k IH]; intros pool g Hk; simpl.
  - split; [done | apply submseteq_nil_l].
  - set (j := Z.to_nat (g `mod` Z.of_nat (length pool))).
    assert (Hj : (j < length pool)%nat).
    { subst j. pose proof (Z.mod_pos_bound g (Z.of_nat (length pool))). lia. }
    destruct (lookup_lt_is_Some_2 pool j Hj) as [c Hc]. rewrite Hc.
    specialize (IH (delete j pool) (lcg_next g)).
    destruct (lcg_draw (delete j pool) k (lcg_next g)) as [l g'].
    simpl in *. rewrite length_delete in IH by eauto.
    destruct IH as [IH1 IH2]; [lia|]. split; [by rewrite IH1|].
    rewrite (delete_Permutation pool j c Hc). by apply submseteq_skip.
Qed.

Lemma lcg_sample_contract : sample_contract (R := lcg_random).
Proof.
  intros pop k g [Hk0 Hk]. simpl. unfold lcg_sample.
  rewrite (proj2 (Z.ltb_ge k 0)), (proj2 (Z.ltb_ge _ k)) by lia. simpl.
  destruct (lcg_draw_spec (Z.to_nat k) pop g) as [Hl Hs]; [lia|].
  destruct (lcg_draw pop (Z.to_nat k) g) as [l g']. simpl in *.
  exists l. split_and!; [done | lia | done].
Qed.

(** ** Construction *)

Lemma submseteq_NoDup {A} (l k : list A) : l ⊆+ k → NoDup k → NoDup l.
Proof.
  intros [k' Hk]%submseteq_Permutation Hnd. rewrite Hk in Hnd.
  by apply NoDup_app in Hnd as [? _].
Qed.

Lemma np_zeros_shaped sx sy :
  0 ≤ sx → 0 ≤ sy →
  np_zeros sy sx = Ok (replicate (Z.to_nat sy) (replicate (Z.to_nat sx) 0)) ∧
  grid_shaped sx sy (replicate (Z.to_nat sy) (replicate (Z.to_nat sx) 0)).
Proof.
  intros Hx Hy. unfold np_zeros.
  rewrite (proj2 (Z.ltb_ge sy 0)), (proj2 (Z.ltb_ge sx 0)) by lia.
  split; [done|]. split; [rewrite length_replicate; lia|].
  apply Forall_replicate. split; [rewrite length_replicate; lia|].
  apply Forall_replicate. by left.
Qed.

Lemma dirty_at_zeros sx sy c :
  c ∈ cells sx sy →
  dirty_at (replicate (Z.to_nat sy) (replicate (Z.to_nat sx) 0)) c = false.
Proof.
  destruct c as [x y]. intros [Hx Hy]%elem_of_cells.
  destruct (np_zeros_shaped sx sy) as [_ Hg]; [lia|lia|].
  destruct (grid_get_shaped _ _ _ _ _ Hg Hx Hy) as (row & v & Hrow & Hv & _ & Hget & _).
  apply lookup_replicate in Hrow as [-> _].
  apply lookup_replicate in Hv as [-> _].
  unfold dirty_at. simpl. by rewrite Hget.
Qed.

Lemma mark_dirty_spec sx sy positions : ∀ g,
  grid_shaped sx sy g →
  (∀ c, c ∈ positions → c ∈ cells sx sy) →
  ∃ g', mark_dirty positions g = Ok g' ∧ grid_shaped sx sy g' ∧
    ∀ c, c ∈ cells sx sy →
      dirty_at g' c = dirty_at g c || bool_decide (c ∈ positions).
Proof.
  induction positions as [|[x y] rest IH]; intros g Hg Hin; cbn [mark_dirty].
  - exists g. split_and!; try done. intros c _.
    rewrite bool_decide_eq_false_2 by apply not_elem_of_nil.
    by rewrite orb_false_r.
  - destruct (proj1 (elem_of_cells x y sx sy)) as [Hx Hy];
      [apply Hin; by left|].
    destruct (grid_set_shaped _ _ _ _ _ 1 Hg Hx Hy) as (row & Hrow & -> & Hg1);
      [by right|].
    cbn [mbind result_bind].
    destruct (IH _ Hg1) as (g' & -> & Hg' & Hd); [intros c Hc; apply Hin; by right|].
    exists g'. split_and!; try done.
    intros [x' y'] Hc. rewrite (Hd _ Hc).
    apply elem_of_cells in Hc as [Hx' Hy'].
    unfold dirty_at at 1. cbn [fst snd].
    rewrite (grid_get_insert _ _ _ _ _ _ _ _ _ Hg Hx Hy Hrow Hx' Hy').
    destruct (decide ((x', y') = (x, y))) as [E|E].
    + rewrite (bool_decide_eq_true_2 ((x', y') ∈ (x, y) :: rest))
        by (rewrite E; by left).
      simpl. by rewrite !orb_true_r.
    + fold (dirty_at g (x', y')). f_equal.
      apply bool_decide_ext. rewrite elem_of_cons.
      split; [by right | by intros [?|?]].
Qed.

Lemma valid_parameters_spec sx sy px py rate :
  valid_parameters sx sy px py rate = true →
  (1 ≤ sx ≤ 256 ∧ 1 ≤ sy ≤ 256) ∧ (0 ≤ px < sx ∧ 0 ≤ py < sy) ∧
  SFleb Float.zero rate = true ∧ SFleb rate Float.one = true.
Proof.
  unfold valid_parameters.
  rewrite !andb_true_iff, !Z.leb_le, !Z.ltb_lt. tauto.
Qed.

Section ConstructionFacts.
Context {rng : Type} {R : PyRandom rng}.

(** What a construction with valid parameters returns. *)
Lemma construction sx sy px py rate seed (g : rng) :
  sample_contract → is_binary64 rate →
  valid_parameters sx sy px py rate = true →
  ∃ e g' n dirty_positions,
    Environment__init__ sx sy px py rate seed g = (Ok e, g') ∧
    num_dirty sx sy rate = Ok n ∧ 0 ≤ n ≤ sx * sy ∧
    Z.of_nat (length dirty_positions) = n ∧
    dirty_positions ⊆+ cells sx sy ∧
    mark_dirty dirty_positions
      (replicate (Z.to_nat sy) (replicate (Z.to_nat sx) 0)) = Ok (grid e) ∧
    e = mkEnvironment sx sy (grid e) px py rate 0 0 1000 None ∧
    grid_shaped sx sy (grid e) ∧
    (∀ c, c ∈ cells sx sy →
       dirty_at (grid e) c = bool_decide (c ∈ dirty_positions)).
Proof.
  intros Hsample Hrate (([Hx1 Hx2] & [Hy1 Hy2]) & _ & H0 & H1)%valid_parameters_spec.
  destruct (num_dirty_bounds sx sy rate) as (n & Hn & Hn0 & Hn1);
    [done | done | by apply valid_rate_unit|].
  destruct (np_zeros_shaped sx sy) as [Hz Hg]; [lia|lia|].
  unfold Environment__init__, _initialize_dirt. rewrite Hz. simpl.
  rewrite Hn.
  set (g0 := match seed with Some a => random_seed a | None => g end).
  destruct (Hsample (cells sx sy) n g0) as (l & Hl & Hlen & Hsub).
  { rewrite length_cells by lia. lia. }
  destruct (random_sample (cells sx sy) n g0) as [sampled g'].
  simpl in Hl. subst sampled. simpl.
  destruct (mark_dirty_spec sx sy l _ Hg) as (grid' & Hm & Hg' & Hd).
  { intros c Hc. by eapply elem_of_submseteq. }
  rewrite Hm. simpl.
  eexists _, g', n, l. split; [reflexivity|]. simpl.
  split_and!; try done.
  intros c Hc. by rewrite (Hd c Hc), dirty_at_zeros.
Qed.

(** The sessions of the service: a construction with valid parameters
    followed by any history is well formed and within its budget. *)
Lemma session_well_formed sx sy px py rate seed (g : rng) :
  sample_contract → is_binary64 rate →
  valid_parameters sx sy px py rate = true →
  ∃ e0 g',
    Environment__init__ sx sy px py rate seed g = (Ok e0, g') ∧
    ∀ cs, well_formed (run cs e0) ∧ within_budget (run cs e0).
Proof.
  intros Hsample Hrate Hvalid.
  destruct (construction sx sy px py rate seed g Hsample Hrate Hvalid)
    as (e0 & g' & n & l & Hinit & _ & _ & _ & _ & _ & He & Hshape & _).
  apply valid_parameters_spec in Hvalid as (_ & (Hpx & Hpy) & _).
  exists e0, g'. split; [done|]. intros cs.
  apply (run_ind (λ e, well_formed e ∧ within_budget e)).
  - rewrite He. by split_and!.
  - intros e c [? ?].
    auto using do_call_well_formed, do_call_within_budget.
Qed.

(** C3 (amended). A construction with valid parameters succeeds; the
    number of initially dirty cells is [int(width * height * dirtRate)],
    the binary64 product truncated toward zero, which is at most the
    number of cells; and the dirt set is exactly the sampled positions,
    which are distinct cells of the grid. *)
Theorem initial_dirt_is_truncated_sample sx sy px py rate seed (g : rng) :
  sample_contract → is_binary64 rate →
  valid_parameters sx sy px py rate = true →
  ∃ e g' n dirty_positions,
    Environment__init__ sx sy px py rate seed g = (Ok e, g') ∧
    num_dirty sx sy rate = Ok n ∧ 0 ≤ n ≤ sx * sy ∧
    Z.of_nat (length (dirt_cells e)) = n ∧
    dirt_cells e ≡ₚ dirty_positions ∧
    NoDup dirty_positions ∧
    (∀ x y, (x, y) ∈ dirty_positions → 0 ≤ x < sx ∧ 0 ≤ y < sy).
Proof.
  intros Hsample Hrate Hvalid.
  destruct (construction sx sy px py rate seed g Hsample Hrate Hvalid)
    as (e & g' & n & l & Hinit & Hn & Hbound & Hlen & Hsub & _ & He & _ & Hd).
  exists e, g', n, l.
  assert (Hnd : NoDup l) by (eapply submseteq_NoDup; [done | apply NoDup_cells]).
  assert (Hperm : dirt_cells e ≡ₚ l).
  { apply NoDup_Permutation; [apply NoDup_filter, NoDup_cells | done |].
    intros c. unfold dirt_cells. rewrite He. simpl.
    rewrite list_elem_of_filter. split.
    - intros [Hc Hin]. rewrite (Hd c Hin) in Hc.
      by apply bool_decide_eq_true in Hc.
    - intros Hc. assert (Hin : c ∈ cells sx sy) by by eapply elem_of_submseteq.
      split; [|done]. rewrite (Hd c Hin). by apply bool_decide_eq_true. }
  refine (conj Hinit (conj Hn (conj Hbound (conj _ (conj Hperm (conj Hnd _)))))).
  - rewrite <- Hlen. f_equal. by apply Permutation_length.
  - intros x y Hc. apply elem_of_cells. by eapply elem_of_submseteq.
Qed.

(** C4. Two constructions with the same size, dirt rate and explicit seed
    produce the same grid, hence the same dirt set, whatever the state of
    the generator before each of them and whatever the initial
    positions. *)
Theorem same_seed_same_dirt sx sy rate seed px py px' py' (g g' : rng) :
  grid <$> (Environment__init__ sx sy px py rate (Some seed) g).1
  = grid <$> (Environment__init__ sx sy px' py' rate (Some seed) g').1 ∧
  dirt_cells <$> (Environment__init__ sx sy px py rate (Some seed) g).1
  = dirt_cells <$> (Environment__init__ sx sy px' py' rate (Some seed) g').1.
Proof.
  unfold Environment__init__, _initialize_dirt.
  destruct (np_zeros sy sx) as [zeros|]; [simpl|done].
  destruct (num_dirty sx sy rate) as [n|]; [|done].
  destruct (random_sample (cells sx sy) n (random_seed seed)) as [[l|] g1];
    simpl; [|done].
  by destruct (mark_dirty l zeros).
Qed.
End ConstructionFacts.

Lemma initial_dirt_is_truncated_sample_witness :
  ∃ e g' n dirty_positions,
    Environment__init__ (R := lcg_random) 8 8 4 4 rate_0_3 (Some 1) 0 = (Ok e, g') ∧
    num_dirty 8 8 rate_0_3 = Ok n ∧ 0 ≤ n ≤ 8 * 8 ∧
    Z.of_nat (length (dirt_cells e)) = n ∧
    dirt_cells e ≡ₚ dirty_positions ∧
    NoDup dirty_positions ∧
    (∀ x y, (x, y) ∈ dirty_positions → 0 ≤ x < 8 ∧ 0 ≤ y < 8).
Proof.
  apply (initial_dirt_is_truncated_sample (R := lcg_random));
    [apply lcg_sample_contract | reflexivity | reflexivity].
Defined.

(** C3, as stated, fails: on one cell with rate 0.75 the specification
    rounds 0.75 to one dirty cell and the construction truncates it to
    none; on 100 cells with rate 0.29 the binary64 product truncates to 28,
    not 29. *)
Lemma sample_size_is_not_rounded :
  valid_parameters 1 1 0 0 rate_0_75 = true ∧
  spec_num_dirty 1 1 rate_0_75 = 1 ∧
  length ∘ dirt_cells <$> new_environment 1 1 0 0 rate_0_75 1 = Ok 0%nat ∧
  spec_num_dirty 10 10 rate_0_29 = 29 ∧
  length ∘ dirt_cells <$> new_environment 10 10 0 0 rate_0_29 1 = Ok 28%nat.
Proof. vm_compute. done. Qed.

(** With the generator of the instance: the seed fixes the grid whatever
    the generator held before, and without a seed the grid follows the
    state of the generator. *)
Example seeded_constructions_agree :
  grid <$> (Environment__init__ (R := lcg_random) 3 3 0 0 rate_0_3 (Some 7) 0).1
  = grid <$> (Environment__init__ (R := lcg_random) 3 3 2 1 rate_0_3 (Some 7) 5).1.
Proof. vm_compute. reflexivity. Qed.

Example unseeded_constructions_differ :
  grid <$> (Environment__init__ (R := lcg_random) 3 3 0 0 rate_0_3 None 0).1
  ≠ grid <$> (Environment__init__ (R := lcg_random) 3 3 0 0 rate_0_3 None 5).1.
Proof. vm_compute. discriminate. Qed.

(** ** Sessions without dirt *)

Lemma np_sum_zeros a b : np_sum (replicate a (replicate b 0)) = 0.
Proof.
  unfold np_sum. induction a as [|a IH]; simpl; [done|].
  rewrite foldr_app, IH. clear. induction b as [|b IH]; simpl; [done|lia].
Qed.

Lemma num_dirty_zero sx sy :
  1 ≤ sx ≤ 256 → 1 ≤ sy ≤ 256 → num_dirty sx sy Float.zero = Ok 0.
Proof.
  intros Hx Hy.
  assert (HN : 0 ≤ sx * sy < 2 ^ 53).
  { change (2 ^ 53) with 9007199254740992. nia. }
  destruct (of_int_at_most _ HN) as (f & Hf & Hle).
  unfold num_dirty. rewrite Hf. simpl.
  by destruct f as [s|s| |[|] m e].
Qed.

Lemma spotless_clean e : spotless e → is_dirty e = Ok false.
Proof.
  intros (Hwf & _ & Hg).
  destruct (well_formed_is_dirty e Hwf) as (v & Hget & _ & ->).
  destruct Hwf as [[Hx Hy] Hs].
  destruct (grid_get_shaped _ _ _ _ _ Hs Hx Hy) as (row & v' & Hrow & Hv & _ & Hget' & _).
  rewrite Hg in Hrow. apply lookup_replicate in Hrow as [-> _].
  apply lookup_replicate in Hv as [-> _].
  rewrite Hget in Hget'. by injection Hget' as ->.
Qed.

Lemma spotless_accept_action a e : spotless e → spotless (accept_action a e).2.
Proof.
  intros Hs. pose proof Hs as (Hwf & Hp & Hg).
  split; [by apply accept_action_well_formed|].
  rewrite accept_action_sizeX, accept_action_sizeY.
  destruct (decide (a = SUCK)) as [->|Ha].
  - destruct (Z.lt_ge_cases (actions_taken e) (max_actions e)).
    + by rewrite suck_clean by (done || by apply spotless_clean).
    + by rewrite accept_action_rejected by lia.
  - rewrite accept_action_move_performance by done.
    by destruct (accept_action_move a e Ha) as [-> _].
Qed.

Lemma spotless_do_call e c : spotless e → spotless (do_call e c).
Proof.
  destruct c as [a|]; simpl; [apply spotless_accept_action|].
  intros (Hwf & Hp & Hg). split; [by apply is_finished_well_formed|].
  by destruct (is_finished_frame e) as (->&->&->&_&_&_&->&_).
Qed.

Lemma spotless_finished e : spotless e → (is_finished e).1 = true.
Proof.
  intros (_ & _ & Hg). apply is_finished_true_iff. right.
  unfold all_dirt_cleaned. rewrite Hg, np_sum_zeros. done.
Qed.

Lemma spotless_reason e :
  spotless e → actions_taken e < max_actions e → completion_reason e = None →
  completion_reason (is_finished e).2 = Some "all_cleaned"%string.
Proof.
  intros (_ & _ & Hg) Hlt Hr. unfold is_finished, record_reason.
  destruct (max_actions e <=? actions_taken e) eqn:E; [lia|].
  unfold all_dirt_cleaned. rewrite Hg, np_sum_zeros. simpl. by rewrite Hr.
Qed.

(** C2 (amended). An environment constructed with dirt rate 0.0 has no
    dirt: along every history the performance stays 0 and a suck earns no
    reward; actions are accepted until 1000 steps are taken and refused from
    then on. The session is reported finished from the start: the reason
    recorded is "all_cleaned" when the end is first observed before 1000
    steps, and "max_steps_reached" is recorded only at 1000 steps. *)
Theorem no_dirt_session {rng} {R : PyRandom rng} sx sy px py seed (g : rng) :
  sample_contract → valid_parameters sx sy px py Float.zero = true →
  ∃ e0 g',
    Environment__init__ sx sy px py Float.zero seed g = (Ok e0, g') ∧
    ∀ cs,
      performance (run cs e0) = 0 ∧
      performance (accept_action SUCK (run cs e0)).2
        - performance (run cs e0) = 0 ∧
      (∀ a, (accept_action a (run cs e0)).1 = Ok false
            ↔ actions_taken (run cs e0) = 1000) ∧
      (is_finished (run cs e0)).1 = true ∧
      (actions_taken (run cs e0) < 1000 → completion_reason (run cs e0) = None →
       completion_reason (is_finished (run cs e0)).2 = Some "all_cleaned"%string) ∧
      (completion_reason (run cs e0) = Some "max_steps_reached"%string →
       actions_taken (run cs e0) = 1000).
Proof.
  intros Hsample Hvalid.
  destruct (construction sx sy px py Float.zero seed g Hsample eq_refl Hvalid)
    as (e0 & g' & n & l & Hinit & Hn & _ & Hlen & _ & Hmark & He & Hshape & _).
  apply valid_parameters_spec in Hvalid as ((Hx & Hy) & (Hpx & Hpy) & _).
  rewrite num_dirty_zero in Hn by done. injection Hn as <-.
  destruct l; [|done]. simpl in Hmark. injection Hmark as Hgrid.
  exists e0, g'. split; [done|]. intros cs.
  assert (H0 : spotless e0 ∧ within_budget e0 ∧ reason_sound e0).
  { rewrite He. by split_and!. }
  assert (Hinv : spotless (run cs e0) ∧ within_budget (run cs e0) ∧
                 reason_sound (run cs e0)).
  { apply (run_ind (λ e, spotless e ∧ within_budget e ∧ reason_sound e));
      [done|].
    intros e c (?&?&?).
    auto using spotless_do_call, do_call_within_budget, reason_sound_step. }
  destruct Hinv as (Hs & [Hb1 Hb2] & Hr).
  pose proof (spotless_accept_action SUCK _ Hs) as (_ & Hp' & _).
  destruct Hs as (Hwf & Hp & Hg).
  split_and!.
  - done.
  - lia.
  - intros a. split.
    + intros Hrej.
      destruct (Z.lt_ge_cases (actions_taken (run cs e0)) (max_actions (run cs e0)))
        as [Hlt|Hge]; [|lia].
      by destruct (accept_action_counts a _ Hlt).
    + intros Ht. by rewrite accept_action_rejected by lia.
  - by apply spotless_finished.
  - intros Hlt Hnone. apply spotless_reason; [done | lia | done].
  - intros Hmax. specialize (Hr Hmax). lia.
Qed.

Lemma no_dirt_session_witness :
  ∃ e0 g',
    Environment__init__ (R := lcg_random) 8 8 4 4 Float.zero (Some 1) 0 = (Ok e0, g') ∧
    ∀ cs,
      performance (run cs e0) = 0 ∧
      performance (accept_action SUCK (run cs e0)).2
        - performance (run cs e0) = 0 ∧
      (∀ a, (accept_action a (run cs e0)).1 = Ok false
            ↔ actions_taken (run cs e0) = 1000) ∧
      (is_finished (run cs e0)).1 = true ∧
      (actions_taken (run cs e0) < 1000 → completion_reason (run cs e0) = None →
       completion_reason (is_finished (run cs e0)).2 = Some "all_cleaned"%string) ∧
      (completion_reason (run cs e0) = Some "max_steps_reached"%string →
       actions_taken (run cs e0) = 1000).
Proof.
  apply (no_dirt_session (R := lcg_random));
    [apply lcg_sample_contract | reflexivity].
Defined.

(** C2, as stated, fails: the environment constructed on 8x8 cells with
    dirt rate 0.0 is reported finished before any step is taken, and the
    reason recorded is "all_cleaned". *)
Lemma no_dirt_session_ends_all_cleaned :
  new_environment 8 8 4 4 Float.zero 1 = Ok world_clean ∧
  actions_taken world_clean = 0 ∧
  is_finished world_clean
  = (true, set_completion_reason (Some "all_cleaned"%string) world_clean).
Proof. vm_compute. done. Qed.

(** * Further properties of the environment *)

Lemma run_cons c cs e : run (c :: cs) e = run cs (do_call e c).
Proof. done. Qed.

Lemma run_app cs cs' e : run (cs ++ cs') e = run cs' (run cs e).
Proof. unfold run. by rewrite foldl_app. Qed.

Lemma do_call_reason_kept e c r :
  completion_reason e = Some r → completion_reason (do_call e c) = Some r.
Proof.
  intros Hr. destruct c as [a|]; simpl.
  - by rewrite accept_action_completion_reason.
  - rewrite is_finished_reason; [done|]. left. by rewrite Hr.
Qed.

(** X1. The completion reason is recorded once: after it is set, no call of
    [accept_action] or [is_finished] changes it. *)
Theorem completion_reason_is_final (e : Environment) (cs : list call) (r : string) :
  completion_reason e = Some r → completion_reason (run cs e) = Some r.
Proof.
  intros Hr.
  apply (run_ind (λ e', completion_reason e' = Some r)); [done|].
  intros e' c. apply do_call_reason_kept.
Qed.

Lemma completion_reason_is_final_witness :
  completion_reason
    (run (replicate 1000 (CallAccept IDLE) ++ [CallFinished]) cleaned_session)
  = Some "all_cleaned"%string.
Proof. apply completion_reason_is_final. reflexivity. Defined.

(** ** The sum of the grid *)

Lemma sum_nonneg (l : list Z) : Forall (λ v, v = 0 ∨ v = 1) l → 0 ≤ foldr Z.add 0 l.
Proof. induction 1 as [|v l Hv _ IH]; simpl; lia. Qed.

Lemma sum_zero_iff (l : list Z) :
  Forall (λ v, v = 0 ∨ v = 1) l → foldr Z.add 0 l = 0 ↔ Forall (λ v, v = 0) l.
Proof.
  induction 1 as [|v l Hv Hl IH]; simpl; [done|].
  pose proof (sum_nonneg l Hl). rewrite Forall_cons, <- IH. lia.
Qed.

Lemma np_sum_nonneg sx sy g : grid_shaped sx sy g → 0 ≤ np_sum g.
Proof.
  intros [_ Hrows]. induction Hrows as [|row g [_ Hrow] _ IH]; [done|].
  rewrite np_sum_cons. pose proof (sum_nonneg row Hrow). lia.
Qed.

Lemma np_sum_zero_iff sx sy g :
  grid_shaped sx sy g → np_sum g = 0 ↔ Forall (Forall (λ v, v = 0)) g.
Proof.
  intros [_ Hrows]. induction Hrows as [|row g [Hl Hrow] Hg IH]; [done|].
  rewrite np_sum_cons, Forall_cons, <- IH, <- (sum_zero_iff row Hrow).
  pose proof (sum_nonneg row Hrow).
  assert (0 ≤ np_sum g) by (by apply (np_sum_nonneg sx (Z.of_nat (length g)))).
  lia.
Qed.

(** What one call does to the grid and to the performance of a well-formed
    session: nothing, or one dirty cell less for one point more. *)
Lemma accept_action_exchange a e :
  well_formed e →
  (grid (accept_action a e).2 = grid e ∧
   performance (accept_action a e).2 = performance e) ∨
  (np_sum (grid (accept_action a e).2) = np_sum (grid e) - 1 ∧
   performance (accept_action a e).2 = performance e + 1 ∧
   dirt_cells (accept_action a e).2
   = filter (λ c, c ≠ get_agent_position e) (dirt_cells e)).
Proof.
  intros Hwf. destruct (decide (a = SUCK)) as [->|Ha].
  - destruct (Z.lt_ge_cases (actions_taken e) (max_actions e)) as [Hlt|Hge].
    + destruct (well_formed_is_dirty e Hwf) as (v & Hget & [-> | ->] & Hd);
        simpl in Hd.
      * left. by rewrite suck_clean.
      * right. destruct (suck_dirty e Hwf Hlt Hd) as (row & Hrow & Hone & ->).
        simpl. split_and!; [|done|].
        -- rewrite (np_sum_insert _ _ _ _ 0 1 Hrow Hone). lia.
        -- destruct Hwf as [[Hx Hy] Hg].
           unfold dirt_cells. simpl. rewrite list_filter_filter.
           apply filter_ext_elem. intros [x y] Hc.
           apply elem_of_cells in Hc as [Hcx Hcy].
           unfold dirty_at, get_agent_position. simpl.
           rewrite (grid_get_insert _ _ _ _ _ _ _ _ _ Hg Hx Hy Hrow Hcx Hcy).
           destruct (decide ((x, y) = (agent_x e, agent_y e))) as [E|E].
           ++ simpl. split; [done | intros [? _]; done].
           ++ split; [done | tauto].
    + left. by rewrite accept_action_rejected by lia.
  - left. split; [by apply accept_action_move | by apply accept_action_move_performance].
Qed.

Lemma dirt_cells_same_grid e e' :
  sizeX e' = sizeX e → sizeY e' = sizeY e → grid e' = grid e →
  dirt_cells e' = dirt_cells e.
Proof. unfold dirt_cells. by intros -> -> ->. Qed.

Lemma do_call_exchange e c :
  well_formed e →
  performance (do_call e c) + np_sum (grid (do_call e c))
    = performance e + np_sum (grid e) ∧
  np_sum (grid (do_call e c)) ≤ np_sum (grid e) ∧
  dirt_cells (do_call e c) ⊆ dirt_cells e.
Proof.
  intros Hwf. destruct c as [a|]; simpl.
  - destruct (accept_action_exchange a e Hwf) as [[Hg Hp] | (Hs & Hp & Hd)].
    + rewrite Hg, Hp. split_and!; [done | done |].
      rewrite (dirt_cells_same_grid e);
        [done | apply accept_action_sizeX | apply accept_action_sizeY | done].
    + rewrite Hs, Hp, Hd. split_and!; [lia | lia |].
      intros c Hc. by apply list_elem_of_filter in Hc as [_ ?].
  - destruct (is_finished_frame e) as (Hx & Hy & Hg & _ & _ & _ & Hp & _).
    simpl in *. rewrite Hg, Hp. split_and!; [done | done |].
    by rewrite (dirt_cells_same_grid e).
Qed.

(** X2. The performance counts the cells that were cleaned: along every
    history of a well-formed session, the performance plus the sum of the
    grid (the number of cells still dirty) stays what it was. *)
Theorem performance_counts_cleaned_cells (e : Environment) (cs : list call) :
  well_formed e →
  performance (run cs e) + np_sum (grid (run cs e))
  = performance e + np_sum (grid e).
Proof.
  intros Hwf.
  apply (run_ind (λ e', well_formed e' ∧
    performance e' + np_sum (grid e') = performance e + np_sum (grid e)));
    [done|].
  intros e' c [Hwf' IH]. split; [by apply do_call_well_formed|].
  destruct (do_call_exchange e' c Hwf') as (-> & _). done.
Qed.

Lemma performance_counts_cleaned_cells_witness :
  performance (run [CallAccept DOWN; CallAccept SUCK; CallAccept SUCK;
                    CallAccept RIGHT; CallAccept SUCK] world_2x2)
  + np_sum (grid (run [CallAccept DOWN; CallAccept SUCK; CallAccept SUCK;
                       CallAccept RIGHT; CallAccept SUCK] world_2x2))
  = performance world_2x2 + np_sum (grid world_2x2).
Proof.
  apply performance_counts_cleaned_cells.
  apply (bool_decide_unpack _). vm_compute. exact I.
Defined.

(** X3. Dirt never appears: along every history of a well-formed session,
    every cell that is dirty was dirty at the start. *)
Theorem dirt_never_appears (e : Environment) (cs : list call) (c : Z * Z) :
  well_formed e → c ∈ dirt_cells (run cs e) → c ∈ dirt_cells e.
Proof.
  intros Hwf.
  apply (run_ind (λ e', well_formed e' ∧
    (c ∈ dirt_cells e' → c ∈ dirt_cells e))); [done|].
  intros e' k [Hwf' IH]. split; [by apply do_call_well_formed|].
  intros Hc. apply IH. by apply (do_call_exchange e' k Hwf').
Qed.

Lemma dirt_never_appears_witness :
  (1, 1) ∈ dirt_cells world_2x2.
Proof.
  apply (dirt_never_appears world_2x2
           [CallAccept DOWN; CallAccept SUCK; CallFinished] (1, 1)).
  - apply (bool_decide_unpack _). vm_compute. exact I.
  - apply (bool_decide_unpack _). vm_compute. exact I.
Defined.

Lemma do_call_steps e c :
  actions_taken e ≤ actions_taken (do_call e c) ∧
  max_actions (do_call e c) = max_actions e.
Proof.
  destruct c as [a|]; simpl.
  - rewrite accept_action_max_actions. split; [|done].
    destruct (Z.lt_ge_cases (actions_taken e) (max_actions e)) as [Hlt|Hge].
    + destruct (accept_action_counts a e Hlt) as [_ ->]. lia.
    + by rewrite accept_action_rejected by lia.
  - destruct (is_finished_frame e) as (_&_&_&_&_&_&_&->&->). done.
Qed.

Lemma do_call_stays_finished e c :
  well_formed e → (is_finished e).1 = true → (is_finished (do_call e c)).1 = true.
Proof.
  intros Hwf Hfin. apply is_finished_true_iff.
  apply is_finished_true_iff in Hfin as [Hb|Hc].
  - left. destruct (do_call_steps e c) as [? ->]. lia.
  - right. unfold all_dirt_cleaned in *. apply Z.eqb_eq in Hc. apply Z.eqb_eq.
    destruct (do_call_exchange e c Hwf) as (_ & Hle & _).
    pose proof (do_call_well_formed e c Hwf) as [_ Hg].
    pose proof (np_sum_nonneg _ _ _ Hg). lia.
Qed.

(** X4. There is no way out of the finished state: once [is_finished]
    answers [True] for a well-formed session, it answers [True] after every
    further history of calls. *)
Theorem finished_is_permanent (e : Environment) (cs : list call) :
  well_formed e → (is_finished e).1 = true → (is_finished (run cs e)).1 = true.
Proof.
  intros Hwf Hfin.
  apply (run_ind (λ e', well_formed e' ∧ (is_finished e').1 = true)); [done|].
  intros e' c [Hwf' Hfin']. split;
    [by apply do_call_well_formed | by apply do_call_stays_finished].
Qed.

Lemma finished_is_permanent_witness :
  (is_finished (run [CallAccept IDLE; CallAccept SUCK; CallFinished]
                  cleaned_session)).1 = true.
Proof.
  apply finished_is_permanent.
  - apply (bool_decide_unpack _). vm_compute. exact I.
  - reflexivity.
Defined.

(** X5. For a grid of the declared shape with cells 0 or 1,
    [all_dirt_cleaned] answers [True] exactly when no cell of the grid is
    dirty. *)
Theorem all_dirt_cleaned_iff_no_dirt (e : Environment) :
  grid_shaped (sizeX e) (sizeY e) (grid e) →
  all_dirt_cleaned e = true ↔ dirt_cells e = [].
Proof.
  intros Hg. unfold all_dirt_cleaned. rewrite Z.eqb_eq.
  rewrite (np_sum_zero_iff _ _ _ Hg). split.
  - intros Hz. unfold dirt_cells. apply elem_of_nil_inv. intros [x y] Hc.
    apply list_elem_of_filter in Hc as [Hd [Hx Hy]%elem_of_cells].
    destruct (grid_get_shaped _ _ _ _ _ Hg Hx Hy) as (row & v & Hrow & Hv & _ & Hget & _).
    unfold dirty_at in Hd. simpl in Hd. rewrite Hget in Hd.
    pose proof (Forall_lookup_1 _ _ _ _ (Forall_lookup_1 _ _ _ _ Hz Hrow) Hv)
      as Hv0.
    simpl in Hv0. subst v. done.
  - intros Hnil. apply Forall_lookup. intros j row Hrow.
    apply Forall_lookup. intros i v Hv.
    destruct Hg as [Hlen Hrows].
    destruct (Forall_lookup_1 _ _ _ _ Hrows Hrow) as [Hrl Hvals].
    destruct (Forall_lookup_1 _ _ _ _ Hvals Hv) as [-> | ->]; [done|].
    apply lookup_lt_Some in Hrow as Hj. apply lookup_lt_Some in Hv as Hi.
    assert (Hc : (Z.of_nat i, Z.of_nat j) ∈ dirt_cells e).
    { apply list_elem_of_filter. split; [|apply elem_of_cells; lia].
      unfold dirty_at, grid_get, np_row. simpl.
      rewrite np_index_in_range by lia. simpl. rewrite Nat2Z.id, Hrow. simpl.
      rewrite np_index_in_range by lia. simpl. by rewrite Nat2Z.id, Hv. }
    rewrite Hnil in Hc. by apply elem_of_nil in Hc.
Qed.

Lemma all_dirt_cleaned_iff_no_dirt_witness :
  all_dirt_cleaned world_clean = true ↔ dirt_cells world_clean = [].
Proof.
  apply all_dirt_cleaned_iff_no_dirt.
  apply (bool_decide_unpack _). vm_compute. exact I.
Defined.

(** X6. A recorded reason tells the truth: along every history of a
    well-formed session that starts without a reason, a session recorded as
    "all_cleaned" has no dirt left, and a session recorded as
    "max_steps_reached" has spent its budget; no other reason is ever
    recorded. *)
Theorem recorded_reason_is_sound (e : Environment) (cs : list call) :
  well_formed e → completion_reason e = None →
  match completion_reason (run cs e) with
  | None => True
  | Some r =>
      (r = "all_cleaned"%string ∧ all_dirt_cleaned (run cs e) = true) ∨
      (r = "max_steps_reached"%string ∧
       max_actions (run cs e) ≤ actions_taken (run cs e))
  end.
Proof.
  intros Hwf Hnone.
  apply (run_ind (λ e', well_formed e' ∧
    match completion_reason e' with
    | None => True
    | Some r =>
        (r = "all_cleaned"%string ∧ all_dirt_cleaned e' = true) ∨
        (r = "max_steps_reached"%string ∧ max_actions e' ≤ actions_taken e')
    end)); [by rewrite Hnone|].
  intros e' c [Hwf' IH]. split; [by apply do_call_well_formed|].
  destruct (completion_reason e') as [r|] eqn:Hr.
  - rewrite (do_call_reason_kept e' c r Hr).
    destruct IH as [[-> Hc] | [-> Hb]].
    + left. split; [done|].
      pose proof (do_call_stays_finished e' c Hwf') as Hs.
      unfold all_dirt_cleaned in *. apply Z.eqb_eq in Hc. apply Z.eqb_eq.
      destruct (do_call_exchange e' c Hwf') as (_ & Hle & _).
      pose proof (do_call_well_formed e' c Hwf') as [_ Hg].
      pose proof (np_sum_nonneg _ _ _ Hg). lia.
    + right. split; [done|]. destruct (do_call_steps e' c) as [? ->]. lia.
  - destruct c as [a|]; simpl.
    + by rewrite accept_action_completion_reason, Hr.
    + unfold is_finished, record_reason. rewrite Hr.
      destruct (max_actions e' <=? actions_taken e') eqn:E; simpl.
      * right. split; [done|]. lia.
      * destruct (all_dirt_cleaned e') eqn:Ec; simpl; [|by rewrite Hr].
        left. split; [done|]. unfold all_dirt_cleaned in *. done.
Qed.

Lemma recorded_reason_is_sound_witness :
  match completion_reason (run [CallAccept SUCK; CallFinished; CallAccept IDLE] world_1x1) with
  | None => True
  | Some r =>
      (r = "all_cleaned"%string ∧
       all_dirt_cleaned (run [CallAccept SUCK; CallFinished; CallAccept IDLE] world_1x1) = true) ∨
      (r = "max_steps_reached"%string ∧
       max_actions (run [CallAccept SUCK; CallFinished; CallAccept IDLE] world_1x1)
       ≤ actions_taken (run [CallAccept SUCK; CallFinished; CallAccept IDLE] world_1x1))
  end.
Proof.
  apply recorded_reason_is_sound.
  - apply (bool_decide_unpack _). vm_compute. exact I.
  - reflexivity.
Defined.

(** X7. The budget bounds the count exactly: from a state within its
    budget, after any list of [accept_action] calls the step counter is the
    number of steps asked for, cut at the budget. *)
Theorem steps_are_counted_up_to_the_budget (e : Environment) (acts : list Action) :
  actions_taken e ≤ max_actions e →
  actions_taken (run (CallAccept <$> acts) e)
  = Z.min (actions_taken e + Z.of_nat (length acts)) (max_actions e).
Proof.
  revert e. induction acts as [|a acts IH]; intros e Hle.
  - simpl. lia.
  - change (CallAccept <$> a :: acts) with (CallAccept a :: (CallAccept <$> acts)).
    rewrite run_cons. cbn [do_call length]. rewrite Nat2Z.inj_succ.
    destruct (Z.lt_ge_cases (actions_taken e) (max_actions e)) as [Hlt|Hge].
    + destruct (accept_action_counts a e Hlt) as [_ Hc].
      rewrite IH; rewrite accept_action_max_actions, Hc; lia.
    + rewrite accept_action_rejected by lia. simpl. rewrite IH by lia. lia.
Qed.

Lemma steps_are_counted_up_to_the_budget_witness :
  actions_taken (run (CallAccept <$> replicate 1200 SUCK) world_2x2)
  = Z.min (0 + Z.of_nat (length (replicate 1200 SUCK))) 1000.
Proof.
  apply (steps_are_counted_up_to_the_budget world_2x2 (replicate 1200 SUCK)).
  simpl. lia.
Defined.

Ltac case_comparisons :=
  repeat match goal with
    | |- context [?a <=? ?b] => destruct (Z.leb_spec a b)
    | |- context [?a <? ?b] => destruct (Z.ltb_spec a b)
    end.

(** X8. A step away from a boundary and the step back return to the same
    cell: with two steps left, right then left restores the position unless
    the agent is in the last column, and likewise left then right, down then
    up, up then down. *)
Theorem move_and_back (e : Environment) :
  0 ≤ agent_x e < sizeX e → 0 ≤ agent_y e < sizeY e →
  actions_taken e + 1 < max_actions e →
  (agent_x e < sizeX e - 1 →
   get_agent_position (run [CallAccept RIGHT; CallAccept LEFT] e)
   = get_agent_position e) ∧
  (0 < agent_x e →
   get_agent_position (run [CallAccept LEFT; CallAccept RIGHT] e)
   = get_agent_position e) ∧
  (agent_y e < sizeY e - 1 →
   get_agent_position (run [CallAccept DOWN; CallAccept UP] e)
   = get_agent_position e) ∧
  (0 < agent_y e →
   get_agent_position (run [CallAccept UP; CallAccept DOWN] e)
   = get_agent_position e).
Proof.
  intros Hx Hy Hsteps.
  split_and!; intros Hroom; unfold run, get_agent_position; simpl;
    unfold accept_action; simpl; case_comparisons; simpl in *;
    case_comparisons; simpl in *; try lia; f_equal; lia.
Qed.

Lemma move_and_back_witness :
  get_agent_position (run [CallAccept RIGHT; CallAccept LEFT] world_2x2)
  = get_agent_position world_2x2.
Proof.
  apply (move_and_back world_2x2); simpl; lia.
Defined.

(** X9. The steps remaining that the service reports are never negative
    for a session within its budget, they are 0 exactly when the next action
    is rejected, and an accepted action takes one of them. *)
Theorem actions_remaining_tells_acceptance (e : Environment) (a : Action) :
  actions_taken e ≤ max_actions e →
  0 ≤ get_actions_remaining e ∧
  (get_actions_remaining e = 0 ↔ (accept_action a e).1 = Ok false) ∧
  (0 < get_actions_remaining e →
   get_actions_remaining (accept_action a e).2 = get_actions_remaining e - 1).
Proof.
  intros Hle. unfold get_actions_remaining.
  rewrite accept_action_max_actions. split_and!.
  - lia.
  - split.
    + intros H0. by rewrite accept_action_rejected by lia.
    + intros Hrej.
      destruct (Z.lt_ge_cases (actions_taken e) (max_actions e)) as [Hlt|Hge];
        [|lia].
      by destruct (accept_action_counts a e Hlt).
  - intros Hpos. destruct (accept_action_counts a e) as [_ ->]; lia.
Qed.

Lemma actions_remaining_tells_acceptance_witness :
  get_actions_remaining (accept_action SUCK world_2x2).2
  = get_actions_remaining world_2x2 - 1.
Proof.
  apply (actions_remaining_tells_acceptance world_2x2 SUCK);
    unfold get_actions_remaining; simpl; lia.
Defined.

(** * Properties of the registry and of its routes *)

Lemma get_environment_found env_id now srv en :
  srv !! env_id = Some en →
  get_environment env_id now srv
  = (Some (environment en),
     <[env_id := mkEntry (environment en) (created_at en) now]> srv).
Proof. intros H. unfold get_environment. by rewrite H. Qed.

Lemma get_environment_missing env_id now srv :
  srv !! env_id = None → get_environment env_id now srv = (None, srv).
Proof. intros H. unfold get_environment. by rewrite H. Qed.

Section RegistryFacts.
Context {rng : Type} {R : PyRandom rng}.

(** X10. A session that was created is found: with valid parameters the
    creation answers the identifier and stores a well-formed, fresh
    environment under it; a lookup of the identifier returns that
    environment, and no other identifier is affected. *)
Theorem created_session_is_found (env_id : string) sx sy px py rate seed
    (created accessed now : Z) (g : rng) (srv : EnvironmentServer) :
  sample_contract → is_binary64 rate →
  valid_parameters sx sy px py rate = true →
  ∃ env g',
    create_environment env_id sx sy px py rate seed created accessed g srv
    = (Ok env_id, <[env_id := mkEntry env created accessed]> srv, g') ∧
    well_formed env ∧
    get_agent_position env = (px, py) ∧
    performance env = 0 ∧ actions_taken env = 0 ∧
    completion_reason env = None ∧
    (get_environment env_id now
       (<[env_id := mkEntry env created accessed]> srv)).1 = Some env ∧
    (∀ other, other ≠ env_id →
       (<[env_id := mkEntry env created accessed]> srv) !! other
       = srv !! other).
Proof.
  intros Hsample Hrate Hvalid.
  destruct (construction sx sy px py rate seed g Hsample Hrate Hvalid)
    as (env & g' & n & l & Hinit & _ & _ & _ & _ & _ & He & Hshape & _).
  apply valid_parameters_spec in Hvalid as (_ & (Hpx & Hpy) & _).
  exists env, g'. unfold create_environment. rewrite Hinit.
  split; [done|].
  split; [rewrite He; by split_and!|].
  rewrite He. simpl. split_and!; try done.
  - by rewrite (get_environment_found _ _ _ _ (lookup_insert_eq _ _ _)).
  - intros other Ho. by rewrite lookup_insert_ne.
Qed.

(** X11. The creation route checks the parameters before anything else: a
    request with every parameter is refused exactly when the parameters are
    not valid, the message names the first check that fails (size, then
    position, then dirt rate), and a refusal leaves the registry and the
    generator as they were. *)
Theorem creation_route_validates (env_id : string) sx sy px py rate seed
    (created accessed : Z) (g : rng) (srv : EnvironmentServer) :
  let answer :=
    Route.create_environment env_id
      (mkCreateRequest (Some sx) (Some sy) (Some px) (Some py) (Some rate) seed)
      created accessed g srv in
  (valid_parameters sx sy px py rate = false ↔ ∃ msg, answer.1.1 = CreateRejected msg) ∧
  (¬ (1 ≤ sx ≤ 256 ∧ 1 ≤ sy ≤ 256) →
   answer = (CreateRejected "Invalid size parameters", srv, g)) ∧
  (1 ≤ sx ≤ 256 ∧ 1 ≤ sy ≤ 256 → ¬ (0 ≤ px < sx ∧ 0 ≤ py < sy) →
   answer = (CreateRejected "Invalid initial position", srv, g)) ∧
  (1 ≤ sx ≤ 256 ∧ 1 ≤ sy ≤ 256 → 0 ≤ px < sx ∧ 0 ≤ py < sy →
   SFleb Float.zero rate && SFleb rate Float.one = false →
   answer = (CreateRejected "Invalid dirt rate", srv, g)).
Proof.
  intros answer. subst answer. unfold Route.create_environment, valid_parameters.
  cbn [default req_sizeX req_sizeY req_init_posX req_init_posY req_dirt_rate
       req_seed from_option id].
  destruct ((1 <=? sx) && (sx <=? 256) && (1 <=? sy) && (sy <=? 256)) eqn:Hs;
    cbn [negb andb].
  - apply andb_prop in Hs as [[[H1 H2]%andb_prop H3]%andb_prop H4].
    apply Z.leb_le in H1, H2, H3, H4.
    destruct ((0 <=? px) && (px <? sx) && (0 <=? py) && (py <? sy)) eqn:Hp;
      cbn [negb andb].
    + apply andb_prop in Hp as [[[P1 P2]%andb_prop P3]%andb_prop P4].
      apply Z.leb_le in P1, P3. apply Z.ltb_lt in P2, P4.
      destruct (SFleb Float.zero rate && SFleb rate Float.one) eqn:Hr;
        cbn [negb].
      * split_and!; [|lia|lia|done].
        split; [done|]. intros [msg Hm].
        unfold create_environment in Hm.
        destruct (Environment__init__ sx sy px py rate seed g) as [[?|?] ?];
          cbn in Hm; discriminate.
      * split_and!; [|lia|lia|done]. split; [eauto | done].
    + split_and!; [|lia|done|].
      * split; [eauto | done].
      * intros _ Hpos.
        apply andb_false_iff in Hp as [[[P|P]%andb_false_iff|P]%andb_false_iff|P];
          (apply Z.leb_gt in P || apply Z.ltb_ge in P); lia.
  - split_and!; [|done| |].
    + split; [eauto | done].
    + intros Hsz.
      apply andb_false_iff in Hs as [[[P|P]%andb_false_iff|P]%andb_false_iff|P];
        apply Z.leb_gt in P; lia.
    + intros Hsz.
      apply andb_false_iff in Hs as [[[P|P]%andb_false_iff|P]%andb_false_iff|P];
        apply Z.leb_gt in P; lia.
Qed.
End RegistryFacts.

Lemma created_session_is_found_witness :
  ∃ env g',
    create_environment (R := lcg_random) "w" 2 2 0 1 rate_0_75 (Some 3) 10 11 0 ∅
    = (Ok "w"%string, <["w"%string := mkEntry env 10 11]> ∅, g') ∧
    well_formed env ∧
    get_agent_position env = (0, 1) ∧
    performance env = 0 ∧ actions_taken env = 0 ∧
    completion_reason env = None ∧
    (get_environment "w" 12 (<["w"%string := mkEntry env 10 11]> ∅)).1 = Some env ∧
    (∀ other, other ≠ "w"%string →
       (<["w"%string := mkEntry env 10 11]> (∅ : EnvironmentServer)) !! other
       = (∅ : EnvironmentServer) !! other).
Proof.
  apply (created_session_is_found (R := lcg_random));
    [apply lcg_sample_contract | reflexivity | reflexivity].
Defined.

Lemma creation_route_validates_witness :
  Route.create_environment (R := lcg_random) "w"
    (mkCreateRequest (Some 300) (Some 8) (Some 9) (Some 0) (Some Float.one) None)
    10 11 0 ∅
  = (CreateRejected "Invalid size parameters", ∅, 0).
Proof.
  apply (creation_route_validates (R := lcg_random) "w" 300 8 9 0 Float.one None).
  lia.
Defined.

Lemma size_checks_pass sx sy :
  1 ≤ sx ≤ 256 → 1 ≤ sy ≤ 256 →
  (1 <=? sx) && (sx <=? 256) && (1 <=? sy) && (sy <=? 256) = true.
Proof.
  intros. rewrite !andb_true_iff, !Z.leb_le. lia.
Qed.

Lemma position_checks_pass sx sy px py :
  0 ≤ px < sx → 0 ≤ py < sy →
  (0 <=? px) && (px <? sx) && (0 <=? py) && (py <? sy) = true.
Proof.
  intros. rewrite !andb_true_iff, !Z.leb_le, !Z.ltb_lt. lia.
Qed.

Lemma half_on_grid n : 1 ≤ n ≤ 256 → 0 ≤ n `div` 2 < n.
Proof. intros. split; [apply Z.div_pos; lia | apply Z.div_lt; lia]. Qed.

(** X12. The defaults of the creation route are always acceptable: a
    request that gives no position and no dirt rate, with sizes that are
    valid (given, or 8 by default), is never refused; the environment is
    created with the agent at the cell (sizeX // 2, sizeY // 2), which is on
    the grid, and with dirt rate 0.3. *)
Theorem creation_defaults_are_valid {rng} {R : PyRandom rng}
    (env_id : string) (given_x given_y : option Z) (seed : option Z)
    (created accessed : Z) (g : rng) (srv : EnvironmentServer) :
  sample_contract →
  1 ≤ default 8 given_x ≤ 256 → 1 ≤ default 8 given_y ≤ 256 →
  ∃ env g',
    Route.create_environment env_id
      (mkCreateRequest given_x given_y None None None seed) created accessed g srv
    = (Created env_id (default 8 given_x) (default 8 given_y)
         (default 8 given_x `div` 2, default 8 given_y `div` 2) rate_0_3,
       <[env_id := mkEntry env created accessed]> srv, g') ∧
    well_formed env ∧
    get_agent_position env = (default 8 given_x `div` 2, default 8 given_y `div` 2) ∧
    sizeX env = default 8 given_x ∧ sizeY env = default 8 given_y.
Proof.
  intros Hsample Hx Hy.
  set (sx := default 8 given_x) in *. set (sy := default 8 given_y) in *.
  assert (Hpx : 0 ≤ sx `div` 2 < sx) by (by apply half_on_grid).
  assert (Hpy : 0 ≤ sy `div` 2 < sy) by (by apply half_on_grid).
  assert (Hvalid : valid_parameters sx sy (sx `div` 2) (sy `div` 2) rate_0_3 = true).
  { unfold valid_parameters.
    by rewrite size_checks_pass, position_checks_pass. }
  destruct (construction sx sy (sx `div` 2) (sy `div` 2) rate_0_3 seed g
              Hsample eq_refl Hvalid)
    as (env & g' & n & l & Hinit & _ & _ & _ & _ & _ & He & Hshape & _).
  exists env, g'. unfold Route.create_environment.
  cbn [default req_sizeX req_sizeY req_init_posX req_init_posY req_dirt_rate
       req_seed from_option id].
  fold sx sy. rewrite size_checks_pass, position_checks_pass by done.
  cbn [negb]. change (S754_finite false 5404319552844595 (-54)) with rate_0_3.
  change (negb (SFleb Float.zero rate_0_3 && SFleb rate_0_3 Float.one))
    with false.
  cbn match. unfold create_environment. rewrite Hinit.
  split; [done|]. rewrite He. simpl. by split_and!.
Qed.

Lemma creation_defaults_are_valid_witness :
  ∃ env g',
    Route.create_environment (R := lcg_random) "w"
      (mkCreateRequest None (Some 5) None None None None) 10 11 0 ∅
    = (Created "w" 8 5 (4, 2) rate_0_3,
       <["w"%string := mkEntry env 10 11]> ∅, g') ∧
    well_formed env ∧
    get_agent_position env = (4, 2) ∧
    sizeX env = 8 ∧ sizeY env = 5.
Proof.
  apply (creation_defaults_are_valid (R := lcg_random) "w" None (Some 5) None
           10 11 0 ∅); [apply lcg_sample_contract | simpl; lia | simpl; lia].
Defined.

(** ** Deletion *)

(** X13. Deletion removes a session once: it answers [True] exactly when
    the identifier is registered, afterwards the identifier is not found,
    the other sessions are as they were, and a second deletion answers
    [False] and changes nothing. *)
Theorem deletion_removes_once (env_id : string) (srv : EnvironmentServer) :
  ((delete_environment env_id srv).1 = true ↔ is_Some (srv !! env_id)) ∧
  (delete_environment env_id srv).2 !! env_id = None ∧
  (∀ other, other ≠ env_id →
     (delete_environment env_id srv).2 !! other = srv !! other) ∧
  delete_environment env_id (delete_environment env_id srv).2
  = (false, (delete_environment env_id srv).2) ∧
  (∀ now, (get_environment env_id now (delete_environment env_id srv).2).1 = None).
Proof.
  unfold delete_environment. destruct (srv !! env_id) as [en|] eqn:Hen; simpl.
  - rewrite lookup_delete_eq. split_and!; try done.
    + intros other Ho. by rewrite lookup_delete_ne.
    + intros now. by rewrite get_environment_missing by apply lookup_delete_eq.
  - rewrite Hen. split_and!; try done.
    intros now. by rewrite (get_environment_missing _ _ _ Hen).
Qed.

(** ** Cleanup *)

Lemma foldl_delete_lookup {A} (ks : list string) : ∀ (m : gmap string A) i,
  foldl (λ m k, delete k m) m ks !! i
  = if decide (i ∈ ks) then None else m !! i.
Proof.
  induction ks as [|k ks IH]; intros m i; cbn [foldl].
  - by rewrite decide_False by apply not_elem_of_nil.
  - rewrite IH. destruct (decide (i ∈ ks)) as [Hin|Hin].
    + by rewrite decide_True by (by right).
    + destruct (decide (i = k)) as [->|Hne].
      * rewrite lookup_delete_eq. by rewrite decide_True by (by left).
      * rewrite lookup_delete_ne by done.
        rewrite decide_False; [done|]. by intros [?|?]%elem_of_cons.
Qed.

Lemma foldl_delete_size {A} (ks : list string) : ∀ (m : gmap string A),
  NoDup ks → (∀ k, k ∈ ks → is_Some (m !! k)) →
  (size (foldl (λ m k, delete k m) m ks) + length ks = size m)%nat.
Proof.
  induction ks as [|k ks IH]; intros m Hnd Hin; simpl; [lia|].
  apply NoDup_cons in Hnd as [Hk Hnd].
  specialize (IH (delete k m) Hnd).
  destruct (Hin k) as [x Hx]; [by left|].
  assert (size m ≠ 0%nat).
  { intros H0%map_size_empty_inv. by rewrite H0, lookup_empty in Hx. }
  rewrite map_size_delete, Hx in IH. simpl in IH.
  rewrite <- (Nat.succ_pred (size m)) by done. rewrite <- IH; [lia|].
  intros k' Hk'. rewrite lookup_delete_ne by (intros ->; done).
  apply Hin. by right.
Qed.

Lemma NoDup_fst_filter {A B} (P : A * B → Prop) `{!∀ x, Decision (P x)}
    (l : list (A * B)) :
  NoDup (l.*1) → NoDup ((filter P l).*1).
Proof.
  induction l as [|x l IH]; intros Hnd; [done|].
  rewrite fmap_cons in Hnd. apply NoDup_cons in Hnd as [Hx Hnd].
  rewrite filter_cons. destruct (decide (P x)); [|by apply IH].
  rewrite fmap_cons. apply NoDup_cons. split; [|by apply IH].
  intros (y & Hy & Hin)%list_elem_of_fmap.
  apply list_elem_of_filter in Hin as [_ Hin].
  apply Hx. apply list_elem_of_fmap. by exists y.
Qed.

Lemma elem_of_to_delete max_age now (srv : EnvironmentServer) k :
  k ∈ (filter (stale max_age now) (map_to_list srv)).*1
  ↔ ∃ en, srv !! k = Some en ∧ max_age < now - last_access en.
Proof.
  rewrite list_elem_of_fmap. split.
  - intros ([k' en] & -> & Hin). apply list_elem_of_filter in Hin as [Hs Hin].
    apply elem_of_map_to_list in Hin. by exists en.
  - intros (en & Hen & Hs). exists (k, en). split; [done|].
    apply list_elem_of_filter. split; [done|]. by apply elem_of_map_to_list.
Qed.

(** What is found after a cleanup. *)
Lemma cleanup_lookup max_age now srv k :
  (cleanup_old_environments max_age now srv).2 !! k
  = match srv !! k with
    | Some en => if decide (max_age < now - last_access en) then None else Some en
    | None => None
    end.
Proof.
  unfold cleanup_old_environments. simpl. rewrite foldl_delete_lookup.
  destruct (srv !! k) as [en|] eqn:Hen.
  - destruct (decide (max_age < now - last_access en)) as [Hs|Hs].
    + rewrite decide_True; [done|]. apply elem_of_to_delete. by exists en.
    + rewrite decide_False; [done|].
      intros (en' & Hen' & Hs')%elem_of_to_delete. congruence.
  - destruct (decide _) as [Hin|]; [|done]. done.
Qed.

Lemma cleanup_count max_age now srv :
  (cleanup_old_environments max_age now srv).1
  = Z.of_nat (size srv) - Z.of_nat (size (cleanup_old_environments max_age now srv).2).
Proof.
  unfold cleanup_old_environments. simpl.
  pose proof (foldl_delete_size
    ((filter (stale max_age now) (map_to_list srv)).*1) srv) as H.
  rewrite <- H; [lia | |].
  - apply NoDup_fst_filter, NoDup_fst_map_to_list.
  - intros k (en & Hen & _)%elem_of_to_delete. by exists en.
Qed.

(** X14. A cleanup removes exactly the sessions whose last access is older
    than [max_age]: a session is found afterwards exactly when it was
    registered and [current_time - last_access <= max_age], it is then
    unchanged, and the number returned is the number of sessions removed. *)
Theorem cleanup_removes_exactly_the_stale (max_age now : Z)
    (srv : EnvironmentServer) :
  (∀ env_id en,
     (cleanup_old_environments max_age now srv).2 !! env_id = Some en
     ↔ srv !! env_id = Some en ∧ now - last_access en ≤ max_age) ∧
  (cleanup_old_environments max_age now srv).1
  = Z.of_nat (size srv)
    - Z.of_nat (size (cleanup_old_environments max_age now srv).2) ∧
  0 ≤ (cleanup_old_environments max_age now srv).1 ≤ Z.of_nat (size srv).
Proof.
  split_and!.
  - intros env_id en. rewrite cleanup_lookup.
    destruct (srv !! env_id) as [en'|]; [|split; [done | by intros [? _]]].
    destruct (decide (max_age < now - last_access en')) as [Hs|Hs].
    + split; [done|]. intros [[= ->] ?]. lia.
    + split.
      * intros [= ->]. split; [done | lia].
      * by intros [[= ->] _].
  - apply cleanup_count.
  - unfold cleanup_old_environments. simpl. lia.
  - rewrite cleanup_count. lia.
Qed.

(** X15. An access keeps a session alive: after a lookup of a registered
    session at time [t], a cleanup at a time [t'] with [t' - t <= max_age]
    still holds the session, with its environment. *)
Theorem access_protects_from_cleanup (env_id : string) (en : entry)
    (t t' max_age : Z) (srv : EnvironmentServer) :
  srv !! env_id = Some en → t' - t ≤ max_age →
  (cleanup_old_environments max_age t' (get_environment env_id t srv).2)
    .2 !! env_id
  = Some (mkEntry (environment en) (created_at en) t).
Proof.
  intros Hen Hage. rewrite (get_environment_found _ _ _ _ Hen). cbn [snd].
  rewrite cleanup_lookup, lookup_insert_eq. cbn [last_access].
  by rewrite decide_False by lia.
Qed.

Lemma access_protects_from_cleanup_witness :
  (cleanup_old_environments 3600 4000 (get_environment "w" 500 small_server).2)
    .2 !! "w"%string
  = Some (mkEntry world_2x2 0 500).
Proof.
  apply (access_protects_from_cleanup "w" (mkEntry world_2x2 0 0));
    [reflexivity | lia].
Defined.

(** X16. A cleanup leaves nothing to clean: a second cleanup with the same
    clock reading and the same [max_age] removes no session and returns 0. *)
Theorem cleanup_is_idempotent (max_age now : Z) (srv : EnvironmentServer) :
  cleanup_old_environments max_age now
    (cleanup_old_environments max_age now srv).2
  = (0, (cleanup_old_environments max_age now srv).2).
Proof.
  assert (Hsame : (cleanup_old_environments max_age now
           (cleanup_old_environments max_age now srv).2).2
          = (cleanup_old_environments max_age now srv).2).
  { apply map_eq. intros k. rewrite cleanup_lookup.
    destruct ((cleanup_old_environments max_age now srv).2 !! k) as [en|] eqn:Hk;
      [|done].
    rewrite cleanup_lookup in Hk. destruct (srv !! k) as [en'|]; [|done].
    destruct (decide (max_age < now - last_access en')); [done|].
    injection Hk as ->. by rewrite decide_False. }
  pose proof (cleanup_count max_age now
                (cleanup_old_environments max_age now srv).2) as Hc.
  rewrite Hsame in Hc.
  destruct (cleanup_old_environments max_age now
              (cleanup_old_environments max_age now srv).2) as [n srv'].
  simpl in *. subst srv'. f_equal. lia.
Qed.

(** X17. The health route counts the sessions: a creation under a new
    identifier adds one, a creation under an identifier already in use
    replaces that session and adds none, a failed creation and a refused
    deletion change nothing, a deletion removes one, and a cleanup removes
    the number it returns. *)
Theorem health_counts_sessions {rng} {R : PyRandom rng} (env_id : string)
    sx sy px py rate seed (created accessed max_age now : Z) (g : rng)
    (srv : EnvironmentServer) :
  Route.health_check
    (create_environment env_id sx sy px py rate seed created accessed g srv).1.2
  = Route.health_check srv
    + match (create_environment env_id sx sy px py rate seed created accessed
               g srv).1.1, srv !! env_id with
      | Ok _, None => 1
      | _, _ => 0
      end ∧
  Route.health_check (delete_environment env_id srv).2
  = Route.health_check srv - (if (delete_environment env_id srv).1 then 1 else 0) ∧
  Route.health_check (Route.cleanup_environments (Some max_age) now srv).2
  = Route.health_check srv
    - (Route.cleanup_environments (Some max_age) now srv).1.
Proof.
  unfold Route.health_check. split_and!.
  - unfold create_environment.
    destruct (Environment__init__ sx sy px py rate seed g) as [[env|e] g'];
      simpl; [|destruct (srv !! env_id); lia].
    rewrite map_size_insert. destruct (srv !! env_id); simpl; lia.
  - unfold delete_environment. destruct (srv !! env_id) as [en|] eqn:Hen;
      simpl; [|lia].
    rewrite map_size_delete, Hen. simpl.
    assert (size srv ≠ 0%nat); [|lia].
    intros H0%map_size_empty_inv. by rewrite H0, lookup_empty in Hen.
  - unfold Route.cleanup_environments. simpl default.
    rewrite cleanup_count. lia.
Qed.

(** ** Reading a session *)

(** X18. The state route and the sense route tell the same story: on the
    same registry they leave the same registry behind, they fail together,
    the perception is the projection of the state, and the completion reason
    reported is the one the session holds after the call. *)
Theorem state_and_sense_agree (env_id : string) (now : Z)
    (srv : EnvironmentServer) :
  (sense_environment env_id now srv).2
  = (Route.get_environment_state env_id now srv).2 ∧
  match (Route.get_environment_state env_id now srv).1 with
  | StateOk s =>
      (sense_environment env_id now srv).1
      = Sensed (mkPerception (st_agent_position s) (st_is_dirty s)
                  (st_actions_remaining s) (st_is_finished s)
                  (st_completion_reason s)) ∧
      ∃ en, (Route.get_environment_state env_id now srv).2 !! env_id = Some en ∧
        st_completion_reason s = completion_reason (environment en) ∧
        st_grid s = grid (environment en) ∧
        st_performance s = performance (environment en) ∧
        st_agent_position s = get_agent_position (environment en) ∧
        st_actions_taken s + st_actions_remaining s
        = max_actions (environment en)
  | StateNotFound msg => (sense_environment env_id now srv).1 = NotFound msg
  | StateError e => (sense_environment env_id now srv).1 = ServerError e
  end.
Proof.
  unfold sense_environment, Route.get_environment_state, get_environment.
  destruct (srv !! env_id) as [en|] eqn:Hen; [|done].
  simpl. destruct (is_dirty (environment en)) as [d|e]; [|done].
  pose proof (is_finished_frame (environment en)) as Hfr.
  destruct (is_finished (environment en)) as [fin env'] eqn:Hfin.
  simpl in *. destruct Hfr as (_&_&Hg&Hx&Hy&_&Hp&Ht&Hm).
  split; [done|]. split; [done|].
  unfold store. rewrite alter_insert_eq. simpl.
  eexists. split; [apply lookup_insert_eq|]. simpl.
  unfold get_agent_position, get_performance, get_actions_remaining.
  rewrite Hg, Hx, Hy, Hp, Hm. split_and!; try done. lia.
Qed.




(** ** Refusals of the action route *)

(** X20. An action is required: for a registered session, the action
    route answers "Action required" exactly when the action of the request
    is absent or empty; the environment is then as it was and only the
    access time is renewed. *)
Theorem action_is_required {S : PyStr} (env_id : string)
    (action_str : option string) (now : Z) (srv : EnvironmentServer)
    (en : entry) :
  srv !! env_id = Some en →
  ((execute_action env_id action_str now srv).1 = BadRequest "Action required"
   ↔ action_str = None ∨ action_str = Some ""%string) ∧
  (action_str = None ∨ action_str = Some ""%string →
   (execute_action env_id action_str now srv).2
   = <[env_id := mkEntry (environment en) (created_at en) now]> srv).
Proof.
  intros Hen. unfold execute_action, get_environment. rewrite Hen.
  destruct action_str as [[|c s]|].
  - split; [split; [by right | done] | done].
  - split; [|by intros [?|?]]. split; [|by intros [?|?]].
    destruct (action_map !! str_lower (String c s)) as [a|]; [|done].
    destruct (is_dirty (environment en)) as [d|?]; [|done].
    destruct (accept_action a (environment en)) as [[b|?] e1]; [|done].
    destruct (is_dirty e1) as [d1|?]; [|done].
    by destruct (is_finished e1).
  - split; [split; [by left | done] | done].
Qed.

Lemma action_is_required_witness :
  (execute_action (S := ascii_str) "w" (Some ""%string) 7 small_server).2
  = <["w"%string := mkEntry world_2x2 0 7]> small_server.
Proof.
  apply (action_is_required (S := ascii_str) "w" (Some ""%string) 7
           small_server (mkEntry world_2x2 0 0)); [reflexivity | by right].
Defined.

(** X21. An identifier is answered "not found" exactly when it is not
    registered, by every route that takes one and whatever else the request
    holds; the registry is then left exactly as it was. *)
Theorem unknown_session_is_not_found {S : PyStr} (env_id : string)
    (action_str : option string) (now : Z) (srv : EnvironmentServer) :
  (srv !! env_id = None ↔
   (execute_action env_id action_str now srv).1
   = NotFound "Environment not found") ∧
  (srv !! env_id = None ↔
   (sense_environment env_id now srv).1 = NotFound "Environment not found") ∧
  (srv !! env_id = None ↔
   (Route.get_environment_state env_id now srv).1
   = StateNotFound "Environment not found") ∧
  (srv !! env_id = None ↔
   (Route.delete_environment env_id srv).1
   = DeleteNotFound "Environment not found") ∧
  (srv !! env_id = None →
   (execute_action env_id action_str now srv).2 = srv ∧
   (sense_environment env_id now srv).2 = srv ∧
   (Route.get_environment_state env_id now srv).2 = srv ∧
   (Route.delete_environment env_id srv).2 = srv).
Proof.
  unfold execute_action, sense_environment, Route.get_environment_state,
    Route.delete_environment, delete_environment, get_environment.
  destruct (srv !! env_id) as [en|] eqn:Hen; [|done].
  split_and!; try done; (split; [done|]); cbn [fst snd].
  - destruct action_str as [[|c s]|]; [done| |done].
    destruct (action_map !! str_lower (String c s)) as [a|]; [|done].
    destruct (is_dirty (environment en)) as [d|?]; [|done].
    destruct (accept_action a (environment en)) as [[b|?] e1]; [|done].
    destruct (is_dirty e1) as [d1|?]; [|done].
    by destruct (is_finished e1).
  - destruct (get_agent_position (environment en)).
    destruct (is_dirty (environment en)) as [d|?]; [|done].
    by destruct (is_finished (environment en)).
  - destruct (get_agent_position (environment en)).
    destruct (is_dirty (environment en)) as [d|?]; [|done].
    by destruct (is_finished (environment en)).
Qed.

Lemma unknown_session_is_not_found_witness :
  (execute_action (S := ascii_str) "v" (Some "jump"%string) 7 small_server).2
  = small_server ∧
  (sense_environment "v" 7 small_server).2 = small_server ∧
  (Route.get_environment_state "v" 7 small_server).2 = small_server ∧
  (Route.delete_environment "v" small_server).2 = small_server.
Proof.
  apply (unknown_session_is_not_found (S := ascii_str)). reflexivity.
Defined.

(** ** The reward *)




(** * Properties of the recording and of the statistics *)

Lemma record_all_snoc calls a b af :
  record_all (calls ++ [(a, b, af)])
  = _record_step a b af None (record_all calls).
Proof. unfold record_all. by rewrite foldl_app. Qed.

Lemma record_all_length calls : length (record_all calls) = length calls.
Proof.
  induction calls as [|[[a b] af] calls IH] using rev_ind; [done|].
  rewrite record_all_snoc. unfold _record_step.
  rewrite !length_app, IH. done.
Qed.

Lemma record_all_lookup calls i :
  record_all calls !! i
  = (λ c : string * snapshot * snapshot,
       mkStep (Z.of_nat i + 1) c.1.1 c.1.2 c.2
         (snap_performance c.2 - snap_performance c.1.2)
         (mkRecordedPerception (snap_agent_position c.1.2)
            (snap_is_dirty c.1.2) (snap_actions_remaining c.1.2)))
    <$> calls !! i.
Proof.
  induction calls as [|[[a b] af] calls IH] using rev_ind; [done|].
  rewrite record_all_snoc. unfold _record_step.
  destruct (decide (i < length calls)%nat) as [Hlt|Hge].
  - rewrite !lookup_app_l by (by rewrite ?record_all_length). apply IH.
  - rewrite !lookup_app_r by (rewrite ?record_all_length; lia).
    rewrite record_all_length.
    destruct (i - length calls)%nat as [|k] eqn:Hk; simpl; [|done].
    do 2 f_equal. lia.
Qed.

(** X23. The recording is numbered and append-only: after any run of the
    recorder there is one step per action, the step at index [i] carries
    the number [i + 1] with the action and the two snapshots given for it,
    its reward is the difference of their performances, and recording more
    actions changes none of the steps already recorded. *)
Theorem recorded_steps_are_numbered
    (calls more : list (string * snapshot * snapshot)) :
  length (record_all calls) = length calls ∧
  (∀ i s, record_all calls !! i = Some s →
     step s = Z.of_nat i + 1 ∧
     calls !! i = Some (step_action s, before_state s, after_state s) ∧
     step_reward s
     = snap_performance (after_state s) - snap_performance (before_state s) ∧
     record_all (calls ++ more) !! i = Some s).
Proof.
  split; [apply record_all_length|].
  intros i s Hs. pose proof Hs as Hs'. rewrite record_all_lookup in Hs.
  destruct (calls !! i) as [[[a b] af]|] eqn:Hc; [|done].
  injection Hs as <-. simpl. split_and!; try done.
  rewrite record_all_lookup, lookup_app_l, Hc; [done|].
  by apply lookup_lt_Some in Hc.
Qed.

Lemma recorded_steps_are_numbered_witness :
  step_reward
    (mkStep 2 "suck" (mkSnapshot [[1]] (0, 0) true 0 1 999)
       (mkSnapshot [[0]] (0, 0) false 1 2 998) 1
       (mkRecordedPerception (0, 0) true 999)) = 1 - 0.
Proof.
  destruct (recorded_steps_are_numbered
              [("idle"%string, mkSnapshot [[1]] (0, 0) true 0 0 1000,
                mkSnapshot [[1]] (0, 0) true 0 1 999);
               ("suck"%string, mkSnapshot [[1]] (0, 0) true 0 1 999,
                mkSnapshot [[0]] (0, 0) false 1 2 998)] []) as [_ H].
  destruct (H 1%nat _ eq_refl) as (_ & _ & Hr & _). exact Hr.
Defined.

(** X24. A replay gives back what was recorded: on the steps of a
    recording, the replayed perception at position [i] is the position, the
    dirt flag and the steps remaining captured before the action [i], the
    replayed state is the snapshot taken after it, and at or past the end,
    or without replay data, both are the dictionary that says finished. *)
Theorem replay_returns_the_recording
    (calls : list (string * snapshot * snapshot)) (i : nat) :
  _get_replay_perception (Some (record_all calls)) i
  = match calls !! i with
    | Some c =>
        ReplayMember
          (mkRecordedPerception (snap_agent_position c.1.2)
             (snap_is_dirty c.1.2) (snap_actions_remaining c.1.2))
    | None => ReplayFinished
    end ∧
  _get_replay_state (Some (record_all calls)) i
  = match calls !! i with
    | Some c => ReplayMember c.2
    | None => ReplayFinished
    end ∧
  ((length calls ≤ i)%nat →
   _get_replay_perception (Some (record_all calls)) i = ReplayFinished ∧
   _get_replay_state (Some (record_all calls)) i = ReplayFinished) ∧
  _get_replay_perception None i = ReplayFinished ∧
  _get_replay_state None i = ReplayFinished.
Proof.
  unfold _get_replay_perception, _get_replay_state.
  rewrite record_all_lookup.
  destruct (calls !! i) as [c|] eqn:Hc; simpl; split_and!; try done.
  intros Hle. apply lookup_lt_Some in Hc. lia.
Qed.

Lemma update_all_snoc calls a ok reward :
  update_all (calls ++ [(a, ok, reward)])
  = _update_efficiency_stats a ok reward (update_all calls).
Proof. unfold update_all. by rewrite foldl_app. Qed.

(** X25. The statistics count each action once: after any run, the suck
    attempts, the movements and the idles add up to the number of actions
    named by one of the six action names (any other name is not counted),
    and the successful sucks are the sucks with a positive reward, so never
    more than the attempts. *)
Theorem statistics_count_each_action (calls : list (string * bool * Z)) :
  suck_attempts (update_all calls) + movement_actions (update_all calls)
    + idle_actions (update_all calls)
  = Z.of_nat (length (filter (λ c, c.1.1 ∈ action_names) calls)) ∧
  successful_sucks (update_all calls)
  = Z.of_nat (length (filter (λ c, c.1.1 = "suck"%string ∧ 0 < c.2) calls)) ∧
  0 ≤ successful_sucks (update_all calls) ≤ suck_attempts (update_all calls).
Proof.
  induction calls as [|[[a ok] reward] calls IH] using rev_ind; [done|].
  rewrite update_all_snoc, !filter_app, !length_app, !Nat2Z.inj_add.
  destruct IH as (IH1 & IH2 & IH3).
  rewrite !filter_cons, !filter_nil. cbn [fst snd].
  unfold _update_efficiency_stats.
  destruct (decide (a = "suck"%string)) as [->|Hsuck].
  - rewrite (decide_True (P := "suck"%string ∈ action_names))
      by (apply (bool_decide_unpack _); vm_compute; exact I).
    cbn [suck_attempts successful_sucks movement_actions idle_actions].
    destruct (Z.ltb_spec 0 reward).
    + rewrite decide_True by done. simpl length. lia.
    + rewrite decide_False by (intros [_ ?]; lia). simpl length. lia.
  - rewrite (decide_False (P := a = "suck"%string ∧ 0 < reward))
      by (by intros [? _]).
    destruct (decide (a ∈ ["up"; "down"; "left"; "right"]%string)) as [Hm|Hm].
    + rewrite decide_True.
      * cbn [suck_attempts successful_sucks movement_actions idle_actions].
        simpl length. lia.
      * repeat (apply elem_of_cons in Hm as [->|Hm];
          [apply (bool_decide_unpack _); vm_compute; exact I|]).
        by apply elem_of_nil in Hm.
    + destruct (decide (a = "idle"%string)) as [->|Hi].
      * rewrite decide_True
          by (apply (bool_decide_unpack _); vm_compute; exact I).
        cbn [suck_attempts successful_sucks movement_actions idle_actions].
        simpl length. lia.
      * rewrite decide_False.
        -- simpl length. lia.
        -- intros Hin. apply Hm. unfold action_names in Hin. simpl in Hin.
           rewrite !elem_of_cons, elem_of_nil in Hin.
           rewrite !elem_of_cons. tauto.
Qed.
